(** * botologist: the IRC connection core and the bot's dispatch engine

    A shallow embedding of [botologist/irc.py] and [botologist/bot.py]:
    the channel membership store, the wire socket's buffered receive, the
    connection's outgoing line cap and reconnect policy, and the bot's
    command resolution and spam throttles.

    Python values are modelled as follows.
    - [str] is [string]; a character is a code point below 256.
    - [bytes] is [list Byte.byte].
    - a [dict] is a [gmap]; an attribute or argument that may be [None]
      is an [option].
    - a [datetime] is a number of microseconds ([Z]); subtracting two of
      them gives a [timedelta], also in microseconds.
    - a raised exception is the [Raise] result of the function. *)

From Stdlib Require Import ZArith Ascii String List Bool Lia.
From Stdlib Require Strings.Byte.
From stdpp Require Import base option list gmap strings.

Local Open Scope Z_scope.

(** ** Exceptions *)

Inductive exn :=
  | AssertionError
  | AttributeError
  | IndexError
  | ValueError
  | KeyError
  | IRCSocketError
  | OSError.

Inductive result (A : Type) :=
  | Ok (a : A)
  | Raise (e : exn).
Arguments Ok {A} a.
Arguments Raise {A} e.

(** The error monad, with stdpp's [x ← m; k] notation. *)
#[global] Instance result_ret : MRet result := fun A a => Ok a.
#[global] Instance result_bind : MBind result := fun A B k r =>
  match r with
  | Ok a => k a
  | Raise e => Raise e
  end.

(** ** Methods

    A method reads and changes the state of its object, acts on the
    outside (the events it emits, in order), and returns or raises.  What
    was done before an exception is raised stays done. *)
Definition prog (St Ev A : Type) : Type := St → St * list Ev * result A.

#[global] Instance prog_ret {St Ev} : MRet (prog St Ev) :=
  fun A a s => (s, [], Ok a).
#[global] Instance prog_bind {St Ev} : MBind (prog St Ev) :=
  fun A B k m s =>
    match m s with
    | (s1, out1, Ok a) =>
        match k a s1 with
        | (s2, out2, r) => (s2, out1 ++ out2, r)
        end
    | (s1, out1, Raise e) => (s1, out1, Raise e)
    end.

Definition lift {St Ev A} (r : result A) : prog St Ev A :=
  fun s => (s, [], r).
Definition get {St Ev} : prog St Ev St := fun s => (s, [], Ok s).
Definition modify {St Ev} (f : St → St) : prog St Ev unit :=
  fun s => (f s, [], Ok tt).
Definition emit {St Ev} (e : Ev) : prog St Ev unit :=
  fun s => (s, [e], Ok tt).
Definition pass {St Ev} : prog St Ev unit := mret tt.

(** [try: m finally: f] *)
Definition finally {St Ev A} (m : prog St Ev A) (f : prog St Ev unit)
  : prog St Ev A :=
  fun s =>
    match m s with
    | (s1, out1, r) =>
        match f s1 with
        | (s2, out2, Ok _) => (s2, out1 ++ out2, r)
        | (s2, out2, Raise e) => (s2, out1 ++ out2, Raise e)
        end
    end.

(** ** Python string operations *)

Module Py.

(** Truthiness of a [str] that may be [None]: [None] and the empty
    string are falsy. *)
Definition truthy (o : option string) : bool :=
  match o with
  | None => false
  | Some s => negb (String.eqb s "")
  end.

Definition code (c : ascii) : N := N_of_ascii c.

(** [c.isspace()] on code points below 256. *)
Definition isspace (c : ascii) : bool :=
  let n := code c in
  ((9 <=? n) && (n <=? 13) || (28 <=? n) && (n <=? 32)
   || (n =? 133) || (n =? 160))%N.

(** [c.lower()] on code points below 256: A-Z and the Latin-1 capitals
    (except the multiplication sign) move up by 32. *)
Definition lower_char (c : ascii) : ascii :=
  let n := code c in
  if ((65 <=? n) && (n <=? 90)
      || (192 <=? n) && (n <=? 222) && negb (n =? 215))%N
  then ascii_of_N (n + 32) else c.

Fixpoint lower (s : string) : string :=
  match s with
  | EmptyString => EmptyString
  | String c r => String (lower_char c) (lower r)
  end.

(** [s.startswith(p)] *)
Fixpoint startswith (s p : string) : bool :=
  match p, s with
  | EmptyString, _ => true
  | String _ _, EmptyString => false
  | String a p', String b s' => Ascii.eqb a b && startswith s' p'
  end.

(** [p in s] for strings. *)
Fixpoint contains (s p : string) : bool :=
  startswith s p ||
  match s with
  | EmptyString => false
  | String _ r => contains r p
  end.

(** [c in s] for a single character. *)
Fixpoint has_char (c : ascii) (s : string) : bool :=
  match s with
  | EmptyString => false
  | String a r => Ascii.eqb a c || has_char c r
  end.

(** [s[s.index(c)+1:]] when [c in s]; the string itself otherwise
    (the callers test [c in s] first). *)
Fixpoint after_first (c : ascii) (s : string) : string :=
  match s with
  | EmptyString => EmptyString
  | String a r => if Ascii.eqb a c then r else after_first c r
  end.

(** [s[1:]] *)
Definition tail (s : string) : string :=
  match s with
  | EmptyString => EmptyString
  | String _ r => r
  end.

(** [s[:n]] for [n >= 0] *)
Fixpoint take (n : nat) (s : string) : string :=
  match n, s with
  | O, _ => EmptyString
  | S _, EmptyString => EmptyString
  | S n', String c r => String c (take n' r)
  end.

Definition snoc (s : string) (c : ascii) : string :=
  s +:+ String c EmptyString.

Definition flush (cur : string) : list string :=
  match cur with
  | EmptyString => []
  | _ => [cur]
  end.

(** [s.split()]: the maximal runs of non-whitespace characters. *)
Fixpoint split_ws_from (cur : string) (s : string) : list string :=
  match s with
  | EmptyString => flush cur
  | String c r =>
      if isspace c then flush cur ++ split_ws_from EmptyString r
      else split_ws_from (snoc cur c) r
  end.

Definition split_ws (s : string) : list string :=
  split_ws_from EmptyString s.

(** [s.split(c)] for a one-character separator: empty pieces are kept
    and there is always at least one piece. *)
Fixpoint split_on_from (sep : ascii) (cur : string) (s : string)
  : list string :=
  match s with
  | EmptyString => [cur]
  | String c r =>
      if Ascii.eqb c sep then cur :: split_on_from sep EmptyString r
      else split_on_from sep (snoc cur c) r
  end.

Definition split_on (sep : ascii) (s : string) : list string :=
  split_on_from sep EmptyString s.

Fixpoint lstrip (s : string) : string :=
  match s with
  | EmptyString => EmptyString
  | String c r => if isspace c then lstrip r else s
  end.

Fixpoint rstrip (s : string) : string :=
  match s with
  | EmptyString => EmptyString
  | String c r =>
      match rstrip r with
      | EmptyString => if isspace c then EmptyString else String c EmptyString
      | r' => String c r'
      end
  end.

(** [s.strip()] *)
Definition strip (s : string) : string := rstrip (lstrip s).

(** [' '.join(l)] *)
Fixpoint join_sp (l : list string) : string :=
  match l with
  | [] => EmptyString
  | [w] => w
  | w :: r => w +:+ " " +:+ join_sp r
  end.

(** [a < b] on strings: lexicographic on code points. *)
Fixpoint ltb (a b : string) : bool :=
  match a, b with
  | _, EmptyString => false
  | EmptyString, String _ _ => true
  | String x a', String y b' =>
      (code x <? code y)%N || ((code x =? code y)%N && ltb a' b')
  end.

(** [s.split(sep)] for a separator of one or more characters: the
    pieces between the non-overlapping occurrences of [sep], found from
    the left.  [skip] counts the characters of a matched separator that
    are still to be passed over. *)
Fixpoint split_str_from (sep : string) (skip : nat) (cur : string)
    (s : string) : list string :=
  match s with
  | EmptyString => [cur]
  | String c r =>
      match skip with
      | S k => split_str_from sep k cur r
      | O =>
          if startswith s sep
          then cur :: split_str_from sep (String.length sep - 1) EmptyString r
          else split_str_from sep O (snoc cur c) r
      end
  end.

Definition split_str (sep : string) (s : string) : list string :=
  split_str_from sep O EmptyString s.

Definition CRLF : string := String "013" (String "010" EmptyString).

(** Some character of [s] is white space. *)
Fixpoint has_space (s : string) : bool :=
  match s with
  | EmptyString => false
  | String c r => isspace c || has_space r
  end.

(** What [s.split()] gives: strings that are not empty and hold no white
    space. *)
Definition is_word (w : string) : Prop :=
  w ≠ EmptyString ∧ has_space w = false.

(** The lines, each followed by CR LF. *)
Fixpoint terminated (lines : list string) : string :=
  match lines with
  | [] => EmptyString
  | l :: rest => l +:+ CRLF +:+ terminated rest
  end.

End Py.

(** ** [botologist/irc.py] *)

Module Irc.

(** *** [class User] *)

(** [is_admin] is not set by the constructor: the bot attaches it to the
    sender of a message before dispatching ([None] = attribute absent). *)
Record User := mkUser {
  nick : string;
  host : option string;
  ident : option string;
  is_admin : option bool;
}.

(** [if host and '@' in host: host = host[host.index('@')+1:]] *)
Definition strip_host (host : option string) : option string :=
  match host with
  | Some h =>
      if Py.truthy host && Py.has_char "@" h
      then Some (Py.after_first "@" h) else host
  | None => None
  end.

(** [if ident and ident[0] == '~': ident = ident[1:]] *)
Definition strip_ident (ident : option string) : option string :=
  match ident with
  | Some (String "~" r) => Some r
  | _ => ident
  end.

Definition User_init (nick : string) (host ident : option string) : User :=
  {| nick := nick; host := strip_host host; ident := strip_ident ident;
     is_admin := None |}.

Definition from_ircformat (s : string) : result User :=
  match s with
  | EmptyString => Raise IndexError
  | String c r =>
      let s := if Ascii.eqb c ":" then r else s in
      let parts := Py.split_on "!" s in
      match parts with
      | nick :: p1 :: _ =>
          match Py.split_on "@" p1 with
          | [ident; host] => Ok (User_init nick (Some host) (Some ident))
          | _ => Raise ValueError
          end
      | _ => Raise IndexError
      end
  end.

(** [User.__eq__] *)
Definition User_eq (a b : User) : bool :=
  bool_decide (host b = host a).

(** *** [class Message] *)

Record Message := mkMessage {
  user : User;
  target : string;
  message : string;
  words : list string;
}.

Definition Message_init (source target message : string) : result Message :=
  u ← from_ircformat source;
  Ok {| user := u; target := target; message := message;
        words := Py.split_ws (Py.strip message) |}.

Definition from_privmsg (msg : string) : result Message :=
  match Py.split_ws msg with
  | w0 :: _ :: w2 :: rest =>
      Message_init (Py.tail w0) w2 (Py.tail (Py.join_sp rest))
  | _ => Raise IndexError
  end.

Definition is_private (m : Message) : result bool :=
  match target m with
  | EmptyString => Raise IndexError
  | String c _ => Ok (negb (Ascii.eqb c "#"))
  end.

(** *** [class Channel]: the membership store *)

Record Channel := mkChannel {
  channel : string;
  host_map : gmap (option string) string;
  nick_map : gmap string (option string);
  allow_colors : bool;
}.

Definition Channel_init (name : string) : result Channel :=
  match name with
  | EmptyString => Raise IndexError
  | String c _ =>
      Ok {| channel := if Ascii.eqb c "#" then name else "#" +:+ name;
            host_map := ∅; nick_map := ∅; allow_colors := true |}
  end.

Definition set_maps (c : Channel) hm nm : Channel :=
  {| channel := channel c; host_map := hm; nick_map := nm;
     allow_colors := allow_colors c |}.

Definition add_user (c : Channel) (u : User) : Channel :=
  set_maps c (<[host u := nick u]> (host_map c))
             (<[nick u := host u]> (nick_map c)).

(** Returns the nick, or [False] (here [None]) when the host is unknown. *)
Definition find_nick_from_host (c : Channel) (h : string) : option string :=
  let h := if Py.has_char "@" h then Py.after_first "@" h else h in
  host_map c !! Some h.

Definition find_host_from_nick (c : Channel) (n : string)
  : option (option string) :=
  nick_map c !! n.

(** [remove_user(nick=None, host=None)].  The four guarded statements of
    the body are kept apart, in their order. *)
Definition remove_user (c : Channel) (nick host : option string)
  : result Channel :=
  if negb (Py.truthy nick || Py.truthy host) then Raise AssertionError else
  let host := strip_host host in
  let host :=
    match nick with
    | Some n => match nick_map c !! n with Some h => h | None => host end
    | None => host
    end in
  let nick :=
    match host with
    | Some h =>
        match host_map c !! Some h with Some n => Some n | None => nick end
    | None => nick
    end in
  let nm :=
    match nick with
    | Some n => delete n (nick_map c)
    | None => nick_map c
    end in
  let hm :=
    match host with
    | Some h => delete (Some h) (host_map c)
    | None => host_map c
    end in
  Ok (set_maps c hm nm).

Definition update_nick (c : Channel) (u : User) (new_nick : string)
  : Channel :=
  let nm := delete (nick u) (nick_map c) in
  set_maps c (<[host u := new_nick]> (host_map c))
             (<[new_nick := host u]> nm).

(** *** [class IRCSocket] *)

Abbreviation bytes := (list Byte.byte).

(** What the successive calls of the operating system's [recv] give: a
    chunk of bytes, or a failure ([OSError]).  Once the script is used
    up the peer has closed the connection and every read is empty. *)
Inductive read := Chunk (data : bytes) | Fails.

Definition socket := list read.

Definition socket_recv (s : socket) : result bytes * socket :=
  match s with
  | [] => (Ok [], [])
  | Chunk d :: r => (Ok d, r)
  | Fails :: r => (Raise OSError, r)
  end.

Definition LF : Byte.byte := Byte.x0a.
Definition CR : Byte.byte := Byte.x0d.

(** The loop test of [recv],
    [data != b'' and (data[-1] != 10 and data[-2] != 13)],
    with Python's left-to-right evaluation: [data[-2]] is read only
    when [data[-1]] is not a line feed, and is out of range on a
    single byte. *)
Definition recv_continues (data : bytes) : result bool :=
  match rev data with
  | [] => Ok false
  | last :: before =>
      if negb (Byte.eqb last LF) then
        match before with
        | [] => Raise IndexError
        | prev :: _ => Ok (negb (Byte.eqb prev CR))
        end
      else Ok false
  end.

Section Recv.

(** [botologist.util.decode] is not part of the sources at hand. *)
Variable decode : bytes → string.

(** The [while] loop of [recv] and what follows it; [None] when the
    loop is still running after [fuel] further reads. *)
Fixpoint recv_loop (fuel : nat) (data : bytes) (s : socket)
  : option (result string) * socket :=
  match recv_continues data with
  | Raise e => (Some (Raise e), s)
  | Ok true =>
      match fuel with
      | O => (None, s)
      | S fuel' =>
          match socket_recv s with
          | (Ok d, s') => recv_loop fuel' (data ++ d) s'
          | (Raise e, s') => (Some (Raise e), s')
          end
      end
  | Ok false =>
      match data with
      | [] => (Some (Raise IRCSocketError), s)
      | _ => (Some (Ok (decode data)), s)
      end
  end.

Definition recv (fuel : nat) (s : socket)
  : option (result string) * socket :=
  match socket_recv s with
  | (Ok d, s') => recv_loop fuel d s'
  | (Raise e, s') => (Some (Raise e), s')
  end.

End Recv.

(** *** [class Connection] *)

Definition MAX_MSG_CHARS : nat := 500.

(** What a method of the connection does to the outside: a write on the
    socket, closing it, starting the thread or the timer that runs
    [_connect], and the calls of the registered callbacks. *)
Inductive effect :=
  | SocketSend (data : string)
  | SocketClose
  | StartThread
  | StartTimer (seconds : Z)
  | OnWelcome
  | OnJoin (chan : string) (u : User)
  | OnPrivmsg (m : Message)
  | ErrorHandler.

(** [reconnect_timer], [ping_timer] and [ping_response_timer] hold the
    delay in seconds of the timer that is armed, if any. *)
Record Connection := mkConnection {
  conn_nick : string;
  server_host : string;
  irc_socket : option socket;
  channels : gmap string Channel;
  has_error_handler : bool;
  quitting : bool;
  reconnect_timer : option Z;
  ping_timer : option Z;
  ping_response_timer : option Z;
}.

Definition set_irc_socket (c : Connection) (s : option socket) :=
  {| conn_nick := conn_nick c; server_host := server_host c;
     irc_socket := s; channels := channels c;
     has_error_handler := has_error_handler c; quitting := quitting c;
     reconnect_timer := reconnect_timer c; ping_timer := ping_timer c;
     ping_response_timer := ping_response_timer c |}.

Definition set_channels (c : Connection) (chs : gmap string Channel) :=
  {| conn_nick := conn_nick c; server_host := server_host c;
     irc_socket := irc_socket c; channels := chs;
     has_error_handler := has_error_handler c; quitting := quitting c;
     reconnect_timer := reconnect_timer c; ping_timer := ping_timer c;
     ping_response_timer := ping_response_timer c |}.

Definition set_reconnect_timer (c : Connection) (t : option Z) :=
  {| conn_nick := conn_nick c; server_host := server_host c;
     irc_socket := irc_socket c; channels := channels c;
     has_error_handler := has_error_handler c; quitting := quitting c;
     reconnect_timer := t; ping_timer := ping_timer c;
     ping_response_timer := ping_response_timer c |}.

Definition set_ping_timers (c : Connection) (p r : option Z) :=
  {| conn_nick := conn_nick c; server_host := server_host c;
     irc_socket := irc_socket c; channels := channels c;
     has_error_handler := has_error_handler c; quitting := quitting c;
     reconnect_timer := reconnect_timer c; ping_timer := p;
     ping_response_timer := r |}.

Definition set_quitting (c : Connection) (q : bool) :=
  {| conn_nick := conn_nick c; server_host := server_host c;
     irc_socket := irc_socket c; channels := channels c;
     has_error_handler := has_error_handler c; quitting := q;
     reconnect_timer := reconnect_timer c; ping_timer := ping_timer c;
     ping_response_timer := ping_response_timer c |}.

(** A method of the connection reads and changes the connection and
    acts on the outside through the effects above. *)
Abbreviation M := (prog Connection effect).

(** [if time:] a delay that is [None] or zero is falsy. *)
Definition time_truthy (time : option Z) : option Z :=
  match time with
  | Some t => if t =? 0 then None else Some t
  | None => None
  end.

Definition disconnect : M unit :=
  c ← get;
  match irc_socket c with
  | None => lift (Raise AttributeError)
  | Some _ => emit SocketClose;; modify (fun c => set_irc_socket c None)
  end.

Definition reconnect (time : option Z) : M unit :=
  c ← get;
  (if irc_socket c is Some _ then disconnect else pass);;
  match time_truthy time with
  | Some t =>
      modify (fun c => set_reconnect_timer c (Some t));; emit (StartTimer t)
  | None => emit StartThread
  end.

(** The line [send] hands to the socket, before the terminator. *)
Definition send_line (msg : string) : string :=
  if (MAX_MSG_CHARS <? String.length msg)%nat
  then Py.take (MAX_MSG_CHARS - 3) msg +:+ "..."
  else msg.

Definition send (msg : string) : M unit :=
  let msg := send_line msg in
  c ← get;
  match irc_socket c with
  | None => lift (Raise AttributeError)
  | Some _ => emit (SocketSend (msg +:+ Py.CRLF))
  end.

Definition reset_ping_timer : M unit :=
  modify (fun c => set_ping_timers c (Some (5 * 60)) None).

Definition send_ping : M unit :=
  c ← get;
  match ping_response_timer c with
  | Some _ => pass
  | None =>
      send ("PING " +:+ server_host c);;
      modify (fun c => set_ping_timers c (ping_timer c) (Some 10))
  end.

Definition handle_ping_timeout : M unit :=
  modify (fun c => set_ping_timers c (ping_timer c) None);;
  reconnect None.

Definition THROTTLED : string :=
  ":Your host is trying to (re)connect too fast -- throttled".

Definition word (ws : list string) (i : nat) : M string :=
  lift (match ws !! i with
        | Some w => Ok w
        | None => Raise IndexError
        end).

Definition get_channel (name : string) : M Channel :=
  c ← get;
  lift (match channels c !! name with
        | Some ch => Ok ch
        | None => Raise KeyError
        end).

Definition put_channel (name : string) (ch : Channel) : M unit :=
  modify (fun c => set_channels c (<[name := ch]> (channels c))).

(** A loop over [self.channels.values()] that changes the channels it
    visits in place. *)
Definition for_channels (f : Channel → M Channel) : M unit :=
  c ← get;
  map_fold (fun name ch (acc : M unit) =>
              acc;; ch' ← f ch; put_channel name ch')
           pass (channels c).

Definition host_str (u : User) : string := default "" (host u).

Definition handle_msg (msg : string) : M unit :=
  let words := Py.split_ws msg in
  w0 ← word words 0;
  if String.eqb w0 "PING" then
    reset_ping_timer;;
    w1 ← word words 1;
    send ("PONG " +:+ w1)
  else if String.eqb w0 "PONG" then
    reset_ping_timer
  else if String.eqb w0 "ERROR" then
    if Py.contains msg THROTTLED
    then reconnect (Some 60)
    else reconnect (Some 10)
  else if Py.ltb "400" w0 && Py.ltb w0 "600" then
    pass
  else if (1 <? length words)%nat then
    w1 ← word words 1;
    if String.eqb w1 "001" then
      emit OnWelcome
    else if String.eqb w1 "JOIN" then
      u ← lift (from_ircformat w0);
      chan ← word words 2;
      c ← get;
      if String.eqb (nick u) (conn_nick c) then
        send ("WHO " +:+ chan)
      else
        ch ← get_channel chan;
        put_channel chan (add_user ch u);;
        emit (OnJoin chan u)
    else if String.eqb w1 "352" then
      chan ← word words 3;
      ident ← word words 4;
      host ← word words 5;
      nick ← word words 7;
      let u := User_init nick (Some host) (Some ident) in
      ch ← get_channel chan;
      put_channel chan (add_user ch u)
    else if String.eqb w1 "NICK" then
      u ← lift (from_ircformat w0);
      w2 ← word words 2;
      let new_nick := Py.tail w2 in
      for_channels (fun ch =>
        if Py.truthy (find_nick_from_host ch (host_str u))
        then mret (update_nick ch u new_nick) else mret ch)
    else if String.eqb w1 "PART" then
      u ← lift (from_ircformat w0);
      chan ← word words 2;
      ch ← get_channel chan;
      ch' ← lift (remove_user ch None (host u));
      put_channel chan ch'
    else if String.eqb w1 "QUIT" then
      u ← lift (from_ircformat w0);
      for_channels (fun ch =>
        if Py.truthy (find_nick_from_host ch (host_str u))
        then lift (remove_user ch None (host u)) else mret ch)
    else if String.eqb w1 "PRIVMSG" then
      m ← lift (from_privmsg msg);
      direct ← lift (is_private m);
      (if (direct : bool) then pass else
         ch ← get_channel (target m);
         match host_map ch !! host (user m) with
         | Some _ => pass
         | None => put_channel (target m) (add_user ch (user m))
         end);;
      emit (OnPrivmsg m)
    else pass
  else pass.

(** [try: self.handle_msg(msg)] with its bare [except]: the registered
    error handler is called and the loop goes on; without one the exception
    is raised again. *)
Definition handle_msg_guarded (msg : string) : M unit :=
  fun c =>
    match handle_msg msg c with
    | (c', out, Raise e) =>
        if has_error_handler c' then (c', out ++ [ErrorHandler], Ok tt)
        else (c', out, Raise e)
    | r => r
    end.

(** The [for msg in data.split('\r\n')] loop of [loop]. *)
Fixpoint handle_lines (msgs : list string) : M unit :=
  match msgs with
  | [] => pass
  | msg :: rest =>
      (if String.eqb msg "" then pass else handle_msg_guarded msg);;
      handle_lines rest
  end.

(** The connection attempts a method has started: [Some t] for a timer of
    [t] seconds, [None] for a thread that connects at once. *)
Definition connects (out : list effect) : list (option Z) :=
  omap (fun e =>
          match e with
          | StartTimer t => Some (Some t)
          | StartThread => Some None
          | _ => None
          end) out.

(** The [except OSError] branch of [loop]: what a failed [recv] leads to. *)
Definition recv_failed : M unit :=
  c ← get;
  if quitting c then pass else reconnect (Some 5).

Section Loop.

Variable decode : bytes → string.

(** [self.irc_socket.recv()] as a method of the connection; [None] when
    the read is still going on after [fuel] chunks. *)
Definition conn_recv (fuel : nat) : Connection → option (M string) :=
  fun c =>
    match irc_socket c with
    | None => Some (lift (Raise AttributeError))
    | Some s =>
        match recv decode fuel s with
        | (None, _) => None
        | (Some r, s') =>
            Some (modify (fun c => set_irc_socket c (Some s'));; lift r)
        end
    end.

(** [loop]: [None] when it is still running after [fuel] rounds.
    [IRCSocketError] is an [OSError]; any other exception of [recv]
    leaves the loop. *)
Fixpoint loop (fuel : nat) (c : Connection)
  : option (Connection * list effect * result unit) :=
  match irc_socket c with
  | None => Some (c, [], Ok tt)
  | Some _ =>
      match fuel with
      | O => None
      | S fuel' =>
          match conn_recv fuel' c with
          | None => None
          | Some m =>
              match m c with
              | (c1, out1, Raise e) =>
                  match e with
                  | OSError | IRCSocketError =>
                      match recv_failed c1 with
                      | (c2, out2, r) => Some (c2, out1 ++ out2, r)
                      end
                  | _ => Some (c1, out1, Raise e)
                  end
              | (c1, out1, Ok data) =>
                  match handle_lines (Py.split_str Py.CRLF data) c1 with
                  | (c2, out2, Raise e) => Some (c2, out1 ++ out2, Raise e)
                  | (c2, out2, Ok _) =>
                      match loop fuel' c2 with
                      | Some (c3, out3, r) => Some (c3, out1 ++ out2 ++ out3, r)
                      | None => None
                      end
                  end
              end
          end
      end
  end.

End Loop.

(** *** More of [class IRCSocket] and [class Connection] *)

(** What one address of [getaddrinfo] leads to in [IRCSocket.connect]:
    [socket.socket] fails, [connect] fails (and the socket is closed), or
    both succeed. *)
Inductive attempt := CreateFails | ConnectFails | Connects.

(** The [for res in addrinfo] loop of [IRCSocket.connect]: [self.socket]
    after the loop (the position of the address it is connected to) and
    the positions of the sockets that were closed.  [sock] is
    [self.socket] before the loop, [i] the position of the first
    address of [cands]. *)
Fixpoint connect_loop (i : nat) (cands : list attempt) (sock : option nat)
  : option nat * list nat :=
  match cands with
  | [] => (sock, [])
  | CreateFails :: rest => connect_loop (S i) rest None
  | ConnectFails :: rest =>
      let (sock', closed) := connect_loop (S i) rest None in
      (sock', i :: closed)
  | Connects :: _ => (Some i, [])
  end.

(** [IRCSocket.connect] on a new [IRCSocket], whose [socket] is [None].
    [getaddrinfo] is what [socket.getaddrinfo] gives: the addresses of
    the host, or the exception it raises when the host does not resolve
    ([socket.gaierror], an [OSError]).  The call is not inside a [try],
    so its exception leaves [connect] before any socket is opened. *)
Definition IRCSocket_connect (getaddrinfo : result (list attempt))
  : result nat * list nat :=
  match getaddrinfo with
  | Raise e => (Raise e, [])
  | Ok addrinfo =>
      match connect_loop 0 addrinfo None with
      | (Some i, closed) => (Ok i, closed)
      | (None, closed) => (Raise IRCSocketError, closed)
      end
  end.

(** A message handed to [send_msg]: a text or a list of lines. *)
Inductive text :=
  | Text (s : string)
  | Lines (l : list string).

Section SendMsg.

(** [botologist.util.strip_irc_formatting] is not part of the sources at
    hand. *)
Variable strip_irc_formatting : text → text.

Fixpoint send_lines (target : string) (lines : list string) : M unit :=
  match lines with
  | [] => pass
  | privmsg :: rest =>
      send ("PRIVMSG " +:+ target +:+ " :" +:+ privmsg);;
      send_lines target rest
  end.

Definition send_msg (target : string) (message : text) : M unit :=
  c ← get;
  let message :=
    match channels c !! target with
    | Some ch =>
        if negb (allow_colors ch) then strip_irc_formatting message
        else message
    | None => message
    end in
  let lines :=
    match message with
    | Lines l => l
    | Text s => Py.split_on "010" s
    end in
  send_lines target lines.

(** The lines [send_msg] sends for a message: the message goes through
    [strip_irc_formatting] when the target is a channel with colours
    switched off, and a text is cut at its line feeds. *)
Definition lines_of (c : Connection) (target : string) (message : text)
  : list string :=
  match (match channels c !! target with
         | Some ch =>
             if negb (allow_colors ch) then strip_irc_formatting message
             else message
         | None => message
         end) with
  | Lines l => l
  | Text s => Py.split_on "010" s
  end.

End SendMsg.

(** What [send_msg] writes for one line. *)
Definition privmsg_line (target l : string) : string :=
  send_line ("PRIVMSG " +:+ target +:+ " :" +:+ l) +:+ Py.CRLF.


Definition join_channel (ch : Channel) : M unit :=
  put_channel (channel ch) ch;;
  send ("JOIN " +:+ channel ch).

(** [quit(reason)]; cancelling the reconnect timer clears it. *)
Definition quit (reason : string) : M unit :=
  c ← get;
  match reconnect_timer c with
  | Some _ => modify (fun c => set_reconnect_timer c None)
  | None =>
      match irc_socket c with
      | None => pass
      | Some _ =>
          modify (fun c => set_quitting c true);;
          send ("QUIT :" +:+ reason)
      end
  end.

End Irc.

(** ** [botologist/bot.py] *)

Module Bot.

(** What a handler returns: [None], a text, or a list of texts. *)
Inductive response :=
  | RNone
  | RText (s : string)
  | RList (l : list string).

(** [if response:] *)
Definition response_truthy (r : response) : bool :=
  match r with
  | RNone => false
  | RText s => negb (String.eqb s "")
  | RList l => negb (bool_decide (l = []))
  end.

(** *** [class CommandMessage] *)

Record CommandMessage := mkCommandMessage {
  cm_message : Irc.Message;
  command : string;
  args : list string;
}.

Definition CommandMessage_init (m : Irc.Message) : result CommandMessage :=
  match Irc.words m with
  | [] => Raise IndexError
  | w :: rest => Ok {| cm_message := m; command := w; args := rest |}
  end.

Definition cm_user (c : CommandMessage) : Irc.User :=
  Irc.user (cm_message c).

Definition cm_target (c : CommandMessage) : string :=
  Irc.target (cm_message c).

Definition set_command (c : CommandMessage) (name : string) :=
  {| cm_message := cm_message c; command := name; args := args c |}.

(** *** [class Channel]: the channel with its handlers *)

Record Handler := mkHandler {
  func : CommandMessage → response;
  _is_threaded : bool;
}.

(** A ticker is called without arguments; it returns a response or
    raises, and [_tick] is written around both. *)
Record Channel := mkChannel {
  _channel : Irc.Channel;
  commands : gmap string Handler;
  joins : list (Irc.User → response);
  replies : list (Irc.Message → response);
  tickers : list (unit → result response);
  admins : list (option string);
}.

Definition channel (ch : Channel) : string := Irc.channel (_channel ch).

(** *** [class Bot] *)

Definition CMD_PREFIX : string := "!".
Definition TICK_INTERVAL : Z := 120.
Definition SPAM_THROTTLE : Z := 2.

(** A [datetime] and a [timedelta], in microseconds. *)
Abbreviation datetime := Z.

(** [diff.seconds]: the seconds field of the normalised [timedelta],
    between 0 and 86399; the days are a field of their own. *)
Definition seconds (diff : Z) : Z := (diff / 1000000) mod 86400.

Definition invocation : Type := option string * string * list string.

Record Bot := mkBot {
  bot_admins : list (option string);
  bans : list (option string);
  channels : gmap string Channel;
  _command_log : gmap string datetime;
  _last_command : option invocation;
  _reply_log : gmap string (gmap string datetime);
  timer : option Z;
}.

Definition set_command_log (b : Bot) (log : gmap string datetime)
    (last : option invocation) : Bot :=
  {| bot_admins := bot_admins b; bans := bans b; channels := channels b;
     _command_log := log; _last_command := last;
     _reply_log := _reply_log b; timer := timer b |}.

Definition set_reply_log (b : Bot) (log : gmap string (gmap string datetime))
  : Bot :=
  {| bot_admins := bot_admins b; bans := bans b; channels := channels b;
     _command_log := _command_log b; _last_command := _last_command b;
     _reply_log := log; timer := timer b |}.

Definition set_timer (b : Bot) (t : option Z) : Bot :=
  {| bot_admins := bot_admins b; bans := bans b; channels := channels b;
     _command_log := _command_log b; _last_command := _last_command b;
     _reply_log := _reply_log b; timer := t |}.

(** What the bot does to the outside: the calls of [conn.send_msg] and
    the threads and timers it starts. *)
Inductive effect :=
  | SendMsg (target msg : string)
  | StartThread
  | StartTimer (seconds : Z).

Abbreviation B := (prog Bot effect).

(** [user.is_admin], an attribute that may not have been set. *)
Definition get_is_admin (u : Irc.User) : result bool :=
  match Irc.is_admin u with
  | Some a => Ok a
  | None => Raise AttributeError
  end.

(** [_send_msg(msgs, target)] for one target: a text is sent as it is, a
    list text by text. *)
Definition _send_msg (msgs : response) (target : string) : B unit :=
  fun b =>
    match msgs with
    | RNone => (b, [], Raise AttributeError)
    | RText s => (b, [SendMsg target s], Ok tt)
    | RList l => (b, map (SendMsg target) l, Ok tt)
    end.

Definition invocation_of (c : CommandMessage) : invocation :=
  (Irc.host (cm_user c), command c, args c).

(** [self.SPAM_THROTTLE * 3] after the same invocation, [SPAM_THROTTLE]
    otherwise. *)
Definition threshold (b : Bot) (c : CommandMessage) : Z :=
  if bool_decide (_last_command b = Some (invocation_of c))
  then SPAM_THROTTLE * 3 else SPAM_THROTTLE.

(** The check for spam at the head of [_call_command]: [true] when the
    call is to be dropped.  [now] is what [datetime.datetime.now()]
    gives.  [is_admin] is read only when the command is in the log. *)
Definition spam_check (now : datetime) (c : CommandMessage) : B bool :=
  b ← get;
  match _command_log b !! command c with
  | Some logged =>
      admin ← lift (get_is_admin (cm_user c));
      if negb (admin : bool) then
        let diff := now - logged in
        mret (seconds diff <? threshold b c)
      else mret false
  | None => mret false
  end.

(** [_call_command] *)
Definition _call_command (now : datetime) (command_func : Handler)
    (c : CommandMessage) : B response :=
  throttled ← spam_check now c;
  if (throttled : bool) then mret RNone else
  modify (fun b => set_command_log b (<[command c := now]> (_command_log b))
                                     (Some (invocation_of c)));;
  mret (func command_func c).

Definition _maybe_send_cmd_reply (now : datetime) (command_func : Handler)
    (c : CommandMessage) : B unit :=
  r ← _call_command now command_func c;
  if response_truthy r then _send_msg r (cm_target c) else pass.

(** [[cmd for cmd in channel.commands if cmd.startswith(cmd_string)]].
    The names come in the order of the map, not in the order in which
    they were registered; the caller only looks at the list when it has
    one element. *)
Definition matching_commands (cmds : gmap string Handler)
    (cmd_string : string) : list string :=
  filter (fun cmd => Py.startswith cmd cmd_string = true)
         (map_to_list cmds).*1.

(** [name] is the one registered command that starts with [key]. *)
Definition unique_match (cmds : gmap string Handler) (key name : string)
  : Prop :=
  is_Some (cmds !! name) ∧ Py.startswith name key = true
  ∧ ∀ name', is_Some (cmds !! name') → Py.startswith name' key = true →
             name' = name.

(** [message.words[0][1:].lower()] *)
Definition cmd_string_of (m : Irc.Message) : result string :=
  match Irc.words m with
  | [] => Raise IndexError
  | w :: _ => Ok (Py.lower (Py.tail w))
  end.

(** The first half of [_handle_command]: the handler and the command
    message it is called with, or [None] where the method returns
    without calling anything. *)
Definition resolve (m : Irc.Message) (ch : Channel)
  : result (option (Handler * CommandMessage)) :=
  cmd_string ← cmd_string_of m;
  match commands ch !! cmd_string with
  | Some command_func =>
      c ← CommandMessage_init m;
      Ok (Some (command_func, c))
  | None =>
      match matching_commands (commands ch) cmd_string with
      | [] => Ok None
      | [name] =>
          c ← CommandMessage_init m;
          match commands ch !! name with
          | Some command_func =>
              Ok (Some (command_func, set_command c (CMD_PREFIX +:+ name)))
          | None => Raise KeyError
          end
      | _ => Ok None
      end
  end.

(** [_handle_command].  A threaded handler runs on a thread of its own;
    here the thread runs at once and to its end. *)
Definition _handle_command (now : datetime) (m : Irc.Message) (ch : Channel)
  : B unit :=
  found ← lift (resolve m ch);
  match found with
  | None => pass
  | Some (command_func, c) =>
      (if _is_threaded command_func then emit StartThread else pass);;
      _maybe_send_cmd_reply now command_func c
  end.

(** The first loop of [_call_repliers]: the replies of all repliers, in
    order. *)
Fixpoint collect_replies (fs : list (Irc.Message → response))
    (m : Irc.Message) (final_replies : list string) : list string :=
  match fs with
  | [] => final_replies
  | reply_func :: rest =>
      let replies := reply_func m in
      if negb (response_truthy replies)
      then collect_replies rest m final_replies
      else
        match replies with
        | RList l => collect_replies rest m (final_replies ++ l)
        | RText s => collect_replies rest m (final_replies ++ [s])
        | RNone => collect_replies rest m final_replies
        end
  end.

(** [list.remove(x)]: the first occurrence goes. *)
Fixpoint list_remove (x : string) (l : list string) : list string :=
  match l with
  | [] => []
  | y :: r => if String.eqb y x then r else y :: list_remove x r
  end.

(** The [for reply in final_replies] loop of [_call_repliers], which
    removes from the list it runs over.  The iterator of a Python list is
    a position [i] in the list as it is now; it stops when [i] is past
    the end.  [fuel] bounds the number of rounds. *)
Fixpoint throttle_loop (fuel : nat) (now : datetime) (chan : string)
    (i : nat) (final_replies : list string)
    (log : gmap string (gmap string datetime))
  : list string * gmap string (gmap string datetime) :=
  match fuel with
  | O => (final_replies, log)
  | S fuel' =>
      match final_replies !! i with
      | None => (final_replies, log)
      | Some reply =>
          let log :=
            match log !! chan with
            | None => <[chan := ∅]> log
            | Some _ => log
            end in
          let chan_log := default ∅ (log !! chan) in
          let final_replies :=
            match chan_log !! reply with
            | Some sent =>
                if seconds (now - sent) <? SPAM_THROTTLE
                then list_remove reply final_replies
                else final_replies
            | None => final_replies
            end in
          throttle_loop fuel' now chan (S i) final_replies
                        (<[chan := <[reply := now]> chan_log]> log)
      end
  end.

(** [_call_repliers].  The list never grows and the position moves on in
    every round, so as many rounds as the list is long are enough. *)
Definition _call_repliers (now : datetime) (ch : Channel) (m : Irc.Message)
  : B (list string) :=
  let final_replies := collect_replies (replies ch) m [] in
  admin ← lift (get_is_admin (Irc.user m));
  if negb (admin : bool) then
    b ← get;
    let '(final_replies, log) :=
      throttle_loop (length final_replies) now (channel ch) 0
                    final_replies (_reply_log b) in
    modify (fun b => set_reply_log b log);;
    mret final_replies
  else mret final_replies.

Definition set_is_admin (m : Irc.Message) (a : bool) : Irc.Message :=
  let u := Irc.user m in
  {| Irc.user := {| Irc.nick := Irc.nick u; Irc.host := Irc.host u;
                    Irc.ident := Irc.ident u; Irc.is_admin := Some a |};
     Irc.target := Irc.target m; Irc.message := Irc.message m;
     Irc.words := Irc.words m |}.

Definition lookup_channel (b : Bot) (name : string) : result Channel :=
  match channels b !! name with
  | Some ch => Ok ch
  | None => Raise KeyError
  end.

(** [_handle_privmsg].  [message.channel] and
    [self.conn.channels[message.target]] are the channel of that name. *)
Definition _handle_privmsg (now : datetime) (m : Irc.Message) : B unit :=
  b ← get;
  if bool_decide (Irc.host (Irc.user m) ∈ bans b) then pass else
  direct ← lift (Irc.is_private m);
  if (direct : bool) then pass else
  ch ← lift (lookup_channel b (Irc.target m));
  let m := set_is_admin m
    (bool_decide (Irc.host (Irc.user m) ∈ bot_admins b)
     || bool_decide (Irc.host (Irc.user m) ∈ admins ch)) in
  if Py.startswith (Irc.message m) CMD_PREFIX then
    _handle_command now m ch
  else
    r ← _call_repliers now ch m;
    if negb (bool_decide (r = [])) then _send_msg (RList r) (Irc.target m)
    else pass.

(** [_handle_join] *)
Fixpoint _handle_join_from (fs : list (Irc.User → response)) (ch : Channel)
    (u : Irc.User) : B unit :=
  match fs with
  | [] => pass
  | join_func :: rest =>
      let r := join_func u in
      if response_truthy r then _send_msg r (channel ch)
      else _handle_join_from rest ch u
  end.

Definition _handle_join (ch : Channel) (u : Irc.User) : B unit :=
  _handle_join_from (joins ch) ch u.

Definition _start_tick_timer : B unit :=
  modify (fun b => set_timer b (Some TICK_INTERVAL));;
  emit (StartTimer TICK_INTERVAL).

(** *** Plugins *)

(** What [register_plugin] reads of a plugin; [botologist.plugin] is not
    part of the sources at hand. *)
Record Plugin := mkPlugin {
  plugin_commands : gmap string Handler;
  plugin_joins : list (Irc.User → response);
  plugin_replies : list (Irc.Message → response);
  plugin_tickers : list (unit → result response);
}.

(** [Channel.register_plugin].  The lists of plugin names and of HTTP
    handlers that the method also appends to are not kept in [Channel]. *)
Definition register_plugin (ch : Channel) (p : Plugin) : Channel :=
  {| _channel := _channel ch;
     commands := map_fold (fun cmd callback cmds => <[cmd := callback]> cmds)
                          (commands ch) (plugin_commands p);
     joins := joins ch ++ plugin_joins p;
     replies := replies ch ++ plugin_replies p;
     tickers := tickers ch ++ plugin_tickers p;
     admins := admins ch |}.

End Bot.

(** ** The ticker: the bot on its connection

    [_tick] is written around what may go wrong in it, with [try] and
    [finally]: a ticker may raise, and so may [conn.send_msg] when the
    connection has no socket.  Here the bot runs together with
    [self.conn], and the calls of [conn.send_msg] are made. *)

Module Ticker.

Import Bot.

(** The bot and [self.conn]. *)
Definition World : Type := Bot * Irc.Connection.

(** What is done to the outside: by the connection, or by the bot
    itself. *)
Inductive effect :=
  | Conn (e : Irc.effect)
  | Own (e : Bot.effect).

Abbreviation W := (prog World effect).

(** A method of the bot that stays within the bot. *)
Definition bot {A} (p : B A) : W A :=
  fun w =>
    match p w.1 with
    | (b, out, r) => ((b, w.2), Own <$> out, r)
    end.

(** A method of [self.conn]. *)
Definition conn {A} (p : Irc.M A) : W A :=
  fun w =>
    match p w.2 with
    | (c, out, r) => ((w.1, c), Conn <$> out, r)
    end.

Section Tick.

Variable strip_irc_formatting : Irc.text → Irc.text.

(** [for msg in msgs: for target in targets:
    self.conn.send_msg(target, msg)], for one target. *)
Fixpoint send_each (target : string) (msgs : list string) : W unit :=
  match msgs with
  | [] => pass
  | msg :: rest =>
      conn (Irc.send_msg strip_irc_formatting target (Irc.Text msg));;
      send_each target rest
  end.

(** [_send_msg(msgs, target)]: a text is a message of its own, a list
    is sent message by message.  [None] as the message makes
    [conn.send_msg] raise [AttributeError]. *)
Definition _send_msg (msgs : response) (target : string) : W unit :=
  match msgs with
  | RNone => lift (Raise AttributeError)
  | RText s => send_each target [s]
  | RList l => send_each target l
  end.

(** The [for ticker in channel.tickers] loop. *)
Fixpoint run_tickers (name : string) (fs : list (unit → result response))
  : W unit :=
  match fs with
  | [] => pass
  | ticker :: rest =>
      result ← lift (ticker tt);
      (if response_truthy result then _send_msg result name else pass);;
      run_tickers name rest
  end.

(** The [for channel in self.server.channels.values()] loop. *)
Fixpoint run_channels (chans : list Channel) : W unit :=
  match chans with
  | [] => pass
  | ch :: rest =>
      run_tickers (channel ch) (tickers ch);;
      run_channels rest
  end.

(** [self.server.channels.values()]: the channels in the order of the
    dict.  [order] is the list of its keys in that order, which is the
    order in which the channels were added; the map of the model does
    not keep it. *)
Definition values (b : Bot) (order : list string) : list Channel :=
  omap (fun name => channels b !! name) order.

(** [_tick]: both logs are emptied, the tickers run, and whatever
    happens to them the timer is started again. *)
Definition _tick (order : list string) : W unit :=
  bot (modify (fun b => set_command_log b ∅ (_last_command b)));;
  bot (modify (fun b => set_reply_log b ((fun _ => ∅) <$> _reply_log b)));;
  finally
    (w ← get;
     run_channels (values w.1 order))
    (bot _start_tick_timer).

End Tick.

End Ticker.

(** ** Sequences of membership operations *)

Module Membership.

Inductive op :=
  | Add (u : Irc.User)
  | Remove (nick host : option string)
  | Rename (u : Irc.User) (new_nick : string).

Definition apply (c : Irc.Channel) (o : op) : result Irc.Channel :=
  match o with
  | Add u => Ok (Irc.add_user c u)
  | Remove nick host => Irc.remove_user c nick host
  | Rename u new_nick => Ok (Irc.update_nick c u new_nick)
  end.

Fixpoint run (ops : list op) (c : Irc.Channel) : result Irc.Channel :=
  match ops with
  | [] => Ok c
  | o :: rest => c' ← apply c o; run rest c'
  end.

(** The two maps are inverse to each other and have the same number of
    entries. *)
Definition paired (hm : gmap (option string) string)
    (nm : gmap string (option string)) : Prop :=
  (∀ h n, hm !! h = Some n ↔ nm !! n = Some h) ∧ size hm = size nm.

Definition lockstep (c : Irc.Channel) : Prop :=
  paired (Irc.host_map c) (Irc.nick_map c).

(** No user without a host is recorded. *)
Definition hosted (c : Irc.Channel) : Prop :=
  Irc.host_map c !! None = None.

(** The user has a host, and its host and nick are both new to the
    channel or are recorded there as a pair. *)
Definition add_ok (c : Irc.Channel) (u : Irc.User) : bool :=
  match Irc.host u with
  | None => false
  | Some _ =>
      match Irc.host_map c !! Irc.host u, Irc.nick_map c !! Irc.nick u with
      | None, None => true
      | Some n, Some h => bool_decide (n = Irc.nick u ∧ h = Irc.host u)
      | _, _ => false
      end
  end.

(** The user is recorded under its host with its nick, and the new nick
    is the old one or is not in use. *)
Definition rename_ok (c : Irc.Channel) (u : Irc.User) (new_nick : string)
  : bool :=
  bool_decide (Irc.host_map c !! Irc.host u = Some (Irc.nick u))
  && (bool_decide (new_nick = Irc.nick u)
      || bool_decide (Irc.nick_map c !! new_nick = None)).

Definition op_ok (c : Irc.Channel) (o : op) : bool :=
  match o with
  | Add u => add_ok c u
  | Remove nick host => Py.truthy nick || Py.truthy host
  | Rename u new_nick => rename_ok c u new_nick
  end.

(** Every operation of the sequence is [op_ok] on the channel it is
    applied to. *)
Fixpoint admissible (ops : list op) (c : Irc.Channel) : bool :=
  match ops with
  | [] => true
  | o :: rest =>
      op_ok c o &&
      match apply c o with
      | Ok c' => admissible rest c'
      | Raise _ => false
      end
  end.

End Membership.

(** ** Sample inputs *)

Module Samples.

Import Irc.

Definition chan : Channel :=
  {| channel := "#chan"; host_map := ∅; nick_map := ∅; allow_colors := true |}.

Definition alice : User :=
  User_init "alice" (Some "~al@home.example") (Some "~al").

(** Another nick from the host of [alice]. *)
Definition alice2 : User :=
  User_init "alice_" (Some "~al@home.example") (Some "~al").

Definition bob : User :=
  User_init "bob" (Some "bob@work.example") (Some "bob").

Definition alice_home : Channel := add_user chan alice.

Definition join_rename_part : list Membership.op :=
  [ Membership.Add alice; Membership.Add bob;
    Membership.Rename alice "al";
    Membership.Remove (Some "carol") None;
    Membership.Remove None (Some "x@work.example") ].

Definition same_host_twice : list Membership.op :=
  [ Membership.Add alice; Membership.Add alice2 ].

(** A connection with a socket; [script] is what the socket will read. *)
Definition online (script : socket) : Connection :=
  {| conn_nick := "bot"; server_host := "irc.example";
     irc_socket := Some script; channels := {[ "#chan" := chan ]};
     has_error_handler := true; quitting := false;
     reconnect_timer := None; ping_timer := None;
     ping_response_timer := None |}.

(** A decoder that reads every byte as one character. *)
Definition decode_latin1 (data : bytes) : string :=
  String.string_of_list_byte data.

(** A line of 501 characters. *)
Definition long_line : string :=
  "PRIVMSG #chan :" +:+ String.string_of_list_ascii (repeat "x"%char 486).

Definition error_throttled : string :=
  "ERROR :Your host is trying to (re)connect too fast -- throttled".

Definition error_closing : string :=
  "ERROR :Closing Link: bot (Ping timeout)".

(** The command of the tests: it answers with the command it was called
    with. *)
Definition dummy_command_func : Bot.Handler :=
  {| Bot.func := fun c => Bot.RText ("test: " +:+ Bot.command c);
     Bot._is_threaded := false |}.

Definition roll_func : Bot.Handler :=
  {| Bot.func := fun c => Bot.RText "4"; Bot._is_threaded := false |}.

Definition repo_func : Bot.Handler :=
  {| Bot.func := fun c => Bot.RText "see the repository";
     Bot._is_threaded := true |}.

Definition with_commands (cmds : gmap string Bot.Handler) : Bot.Channel :=
  {| Bot._channel := chan; Bot.commands := cmds; Bot.joins := [];
     Bot.replies := []; Bot.tickers := []; Bot.admins := [] |}.

Definition chan_asdf : Bot.Channel :=
  with_commands {[ "asdf" := dummy_command_func ]}.

Definition chan_roll : Bot.Channel :=
  with_commands {[ "roll" := roll_func ]}.

Definition chan_roll_repo : Bot.Channel :=
  with_commands (<[ "repo" := repo_func ]> {[ "roll" := roll_func ]}).

(** Two repliers, each with a fixed answer. *)
Definition chan_replies : Bot.Channel :=
  {| Bot._channel := chan; Bot.commands := ∅; Bot.joins := [];
     Bot.replies := [ fun _ => Bot.RText "I always work";
                      fun _ => Bot.RText "So do I" ];
     Bot.tickers := []; Bot.admins := [] |}.

Definition sender (nick host : string) (admin : bool) : User :=
  {| nick := nick; host := Some host; ident := Some nick;
     is_admin := Some admin |}.

(** [text] said in [#chan] by [u]. *)
Definition said (u : User) (text : string) : Message :=
  {| user := u; target := "#chan"; message := text;
     words := Py.split_ws (Py.strip text) |}.

Definition foo : User := sender "foo" "baz" false.
Definition root : User := sender "root" "admin.example" true.

Definition command_of (u : User) (w : string) (args : list string)
  : Bot.CommandMessage :=
  {| Bot.cm_message := said u (w +:+ " " +:+ Py.join_sp args);
     Bot.command := w; Bot.args := args |}.

Definition bot_with (ch : Bot.Channel) : Bot.Bot :=
  {| Bot.bot_admins := [Some "admin.example"]; Bot.bans := [];
     Bot.channels := {[ "#chan" := ch ]};
     Bot._command_log := ∅; Bot._last_command := None;
     Bot._reply_log := ∅; Bot.timer := None |}.

Definition new_bot : Bot.Bot := bot_with chan_roll.

Definition second : Z := 1000000.

(** The bot after [!roll] from [foo] at time 0. *)
Definition rolled_bot : Bot.Bot :=
  Bot.set_command_log new_bot {[ "!roll" := 0 ]}
    (Some (Some "baz", "!roll", [])).

(** The bot after both repliers of [chan_replies] answered at time 0. *)
Definition replied_bot : Bot.Bot :=
  Bot.set_reply_log (bot_with chan_replies)
    {[ "#chan" := {[ "I always work" := 0; "So do I" := 0 ]} ]}.

(** [!as] as the connection hands it to the bot. *)
Definition typed_as : Message :=
  {| user := User_init "foo" (Some "baz") (Some "bar");
     target := "#chan"; message := "!as";
     words := Py.split_ws (Py.strip "!as") |}.

(** A text of two lines. *)
Definition two_lines : string :=
  "first" +:+ String "010" "second".

(** A ping of the server that comes in two chunks. *)
Definition ping_head : bytes := String.list_byte_of_string "PING :ir".
Definition ping_tail : bytes :=
  String.list_byte_of_string ("c" +:+ Py.CRLF).

(** A channel with three join handlers: the first never answers. *)
Definition chan_greets : Bot.Channel :=
  {| Bot._channel := chan; Bot.commands := ∅;
     Bot.joins := [ fun _ => Bot.RNone;
                    fun u => Bot.RText ("hello " +:+ nick u);
                    fun _ => Bot.RText "welcome" ];
     Bot.replies := []; Bot.tickers := []; Bot.admins := [] |}.

(** A plugin that declares [roll] anew and brings one replier. *)
Definition other_roll : Bot.Plugin :=
  {| Bot.plugin_commands := {[ "roll" := repo_func ]};
     Bot.plugin_joins := [];
     Bot.plugin_replies := [ fun _ => Bot.RText "I always work" ];
     Bot.plugin_tickers := [] |}.


(** The connection of [online] after its socket is gone. *)
Definition offline : Connection := set_irc_socket (online []) None.

(** A channel with two tickers: the first has nothing to say, the
    second has. *)
Definition chan_clock : Bot.Channel :=
  {| Bot._channel := chan; Bot.commands := ∅; Bot.joins := [];
     Bot.replies := [];
     Bot.tickers := [ fun _ => Ok Bot.RNone;
                      fun _ => Ok (Bot.RText "tick") ];
     Bot.admins := [] |}.

(** A channel with three tickers: the first has nothing to say, the
    second has, and the third raises. *)
Definition chan_ticks : Bot.Channel :=
  {| Bot._channel := chan; Bot.commands := ∅; Bot.joins := [];
     Bot.replies := [];
     Bot.tickers := [ fun _ => Ok Bot.RNone;
                      fun _ => Ok (Bot.RText "tick");
                      fun _ => Raise ValueError ];
     Bot.admins := [] |}.

End Samples.

(** * The membership store *)

Section MembershipStore.

Import Irc Membership Samples.

Implicit Types (c : Channel) (u : User).

Lemma set_maps_same c : set_maps c (host_map c) (nick_map c) = c.
Proof. by destruct c. Qed.

(** [remove_user] raises exactly when the assertion [nick or host] fails. *)
Lemma remove_user_raises c nick host :
  Py.truthy nick || Py.truthy host = false →
  remove_user c nick host = Raise AssertionError.
Proof. intros H. unfold remove_user. by rewrite H. Qed.

(** C10.  [remove_user] called with a nick or a host that is a non-empty
    string (what the assertion [nick or host] asks for) returns: it never
    raises.  When the nick is not a key of [nick_map] and the host, cut
    after its ['@'], is not a key of [host_map], the channel it returns is
    the channel it was given: both maps are unchanged. *)
Theorem remove_user_safe c nick host :
  Py.truthy nick || Py.truthy host = true →
  (∃ c', remove_user c nick host = Ok c')
  ∧ ((∀ n, nick = Some n → nick_map c !! n = None) →
     (∀ h, strip_host host = Some h → host_map c !! Some h = None) →
     remove_user c nick host = Ok c).
Proof.
  intros Hgiven. unfold remove_user. rewrite Hgiven. simpl.
  split; [eauto |].
  intros Hn Hh.
  destruct nick as [n|]; [rewrite (Hn n eq_refl) |];
    (destruct (strip_host host) as [h|] eqn:Eh;
      [rewrite (Hh h eq_refl) |]);
    rewrite ?delete_id by auto; by rewrite set_maps_same.
Qed.

Lemma remove_user_safe_witness :
  (∃ c', remove_user alice_home (Some "bob") (Some "bob@work.example") = Ok c')
  ∧ remove_user alice_home (Some "bob") (Some "bob@work.example")
    = Ok alice_home.
Proof.
  destruct (remove_user_safe alice_home (Some "bob")
              (Some "bob@work.example") eq_refl) as [H1 H2].
  split; [exact H1 |].
  apply H2.
  - intros n [= <-]. reflexivity.
  - intros h [= <-]. reflexivity.
Defined.

End MembershipStore.

Section Lockstep.

Import Irc Membership Samples.

Implicit Types (c : Channel) (u : User).
Implicit Types (hm : gmap (option string) string).
Implicit Types (nm : gmap string (option string)).

Lemma paired_empty : paired ∅ ∅.
Proof. split; [intros h n; by rewrite !lookup_empty | done]. Qed.

Lemma paired_insert_fresh hm nm h n :
  paired hm nm → hm !! h = None → nm !! n = None →
  paired (<[h := n]> hm) (<[n := h]> nm).
Proof.
  intros [Hinv Hsize] Hh Hn. split.
  - intros h' n'. rewrite !lookup_insert.
    destruct (decide (h = h')) as [<-|], (decide (n = n')) as [<-|];
      [by split | | | apply Hinv].
    + split; [congruence |]. intros Hx. apply Hinv in Hx. congruence.
    + split; [| congruence]. intros Hx. apply Hinv in Hx. congruence.

  - rewrite !map_size_insert_None by done. by rewrite Hsize.
Qed.

Lemma paired_delete hm nm h n :
  paired hm nm → hm !! h = Some n →
  paired (delete h hm) (delete n nm).
Proof.
  intros [Hinv Hsize] Hh.
  assert (Hn : nm !! n = Some h) by by apply Hinv.
  split.
  - intros h' n'. rewrite !lookup_delete.
    destruct (decide (h = h')) as [<-|], (decide (n = n')) as [<-|];
      [by split | | | apply Hinv].
    + split; [done |]. intros Hx. apply Hinv in Hx. congruence.
    + split; [| done]. intros Hx. apply Hinv in Hx. congruence.
  - rewrite !map_size_delete_Some by eauto. by rewrite Hsize.
Qed.

Lemma add_user_lockstep c u :
  lockstep c → hosted c → add_ok c u = true →
  lockstep (add_user c u) ∧ hosted (add_user c u).
Proof.
  unfold lockstep, hosted, add_ok, add_user. simpl.
  intros Hp Hnone Hok.
  destruct (host u) as [h|] eqn:Eh; [| done].
  rewrite lookup_insert_ne by done. split; [| done].
  destruct (host_map c !! Some h) as [n|] eqn:E1,
           (nick_map c !! nick u) as [h'|] eqn:E2; try done.
  - apply bool_decide_eq_true in Hok as [-> ->].
    by rewrite !insert_id.
  - by apply paired_insert_fresh.
Qed.

Lemma remove_user_lockstep c nick host c' :
  lockstep c → hosted c → remove_user c nick host = Ok c' →
  lockstep c' ∧ hosted c'.
Proof.
  unfold lockstep, hosted, remove_user.
  intros Hp Hnone.
  destruct (negb _); [done |]. intros [= <-]. simpl.
  assert (Hdel : ∀ h n, host_map c !! Some h = Some n →
            paired (delete (Some h) (host_map c)) (delete n (nick_map c))
            ∧ delete (Some h) (host_map c) !! None = None).
  { intros h n Hh. split; [by apply paired_delete |].
    by rewrite lookup_delete_ne. }
  assert (Hkeep : ∀ n, nick_map c !! n = None →
            delete n (nick_map c) = nick_map c) by apply delete_id.
  assert (Hhost : ∀ n h, nick_map c !! n = Some h → ∃ hs, h = Some hs).
  { intros n [hs|] Hn; [eauto |]. apply Hp in Hn. congruence. }
  set (h0 := strip_host host). clearbody h0.
  destruct nick as [n|]; [destruct (nick_map c !! n) as [h|] eqn:En |].
  - destruct (Hhost _ _ En) as [hs ->].
    apply Hp in En. rewrite En. by apply Hdel.
  - destruct h0 as [hs|]; [destruct (host_map c !! Some hs) as [n'|] eqn:Eh |].
    + by apply Hdel.
    + by rewrite Hkeep, delete_id.
    + by rewrite Hkeep.
  - destruct h0 as [hs|]; [destruct (host_map c !! Some hs) as [n'|] eqn:Eh |].
    + by apply Hdel.
    + by rewrite delete_id.
    + done.
Qed.

Lemma update_nick_lockstep c u new_nick :
  lockstep c → hosted c → rename_ok c u new_nick = true →
  lockstep (update_nick c u new_nick) ∧ hosted (update_nick c u new_nick).
Proof.
  unfold lockstep, hosted, rename_ok, update_nick. simpl.
  intros Hp Hnone Hok.
  apply andb_true_iff in Hok as [Hrec Hnew].
  apply bool_decide_eq_true in Hrec.
  assert (Hh : host u ≠ None) by congruence.
  rewrite lookup_insert_ne by done. split; [| done].
  rewrite <- (insert_delete_eq (host_map c)).
  apply paired_insert_fresh.
  - by apply paired_delete.
  - apply lookup_delete_eq.
  - apply orb_true_iff in Hnew as [Hnew | Hnew];
      apply bool_decide_eq_true in Hnew.
    + subst. apply lookup_delete_eq.
    + rewrite lookup_delete. by case_decide.
Qed.

Lemma run_lockstep ops : ∀ c,
  lockstep c → hosted c → admissible ops c = true →
  ∃ c', run ops c = Ok c' ∧ lockstep c' ∧ hosted c'.
Proof.
  induction ops as [|o ops IH]; intros c Hp Hnone Hadm; simpl in *.
  - eauto.
  - apply andb_true_iff in Hadm as [Hok Hadm].
    destruct (apply c o) as [c1|] eqn:Eap; [| done].
    apply IH; [| | done]; destruct o; simpl in *.
    + injection Eap as <-. by apply add_user_lockstep.
    + by eapply remove_user_lockstep.
    + injection Eap as <-. by apply update_nick_lockstep.
    + injection Eap as <-. by apply add_user_lockstep.
    + by eapply remove_user_lockstep.
    + injection Eap as <-. by apply update_nick_lockstep.
Qed.

(** C1, as the code has it.  Starting from a new channel, a sequence of
    membership operations in which every [add_user] adds a user that has
    a host and whose host and nick are both new to the channel or already
    recorded as a pair, every [update_nick] renames a user recorded
    under its host with its nick to a nick that is unchanged or not in
    use, and every [remove_user] is given a nick or a host, runs without
    raising and leaves [host_map] and [nick_map] inverse to each other
    and of equal size. *)
Theorem membership_lockstep name c0 ops :
  Channel_init name = Ok c0 →
  admissible ops c0 = true →
  ∃ c, run ops c0 = Ok c ∧ lockstep c.
Proof.
  intros Hinit Hadm.
  assert (lockstep c0 ∧ hosted c0) as [Hp Hnone].
  { destruct name; [done |]. injection Hinit as <-.
    split; [apply paired_empty | done]. }
  destruct (run_lockstep ops c0 Hp Hnone Hadm) as (c & Hrun & Hc & _).
  eauto.
Qed.

Lemma membership_lockstep_witness :
  ∃ c, run join_rename_part chan = Ok c ∧ lockstep c.
Proof.
  apply (membership_lockstep "#chan" chan join_rename_part); reflexivity.
Defined.

(** C1 as stated fails: after [add_user] for two nicks from one host,
    [host_map] has one entry and [nick_map] two. *)
Lemma membership_lockstep_counterexample :
  ∃ c, Channel_init "#chan" = Ok chan
       ∧ run same_host_twice chan = Ok c
       ∧ size (host_map c) = 1%nat ∧ size (nick_map c) = 2%nat
       ∧ ¬ lockstep c.
Proof.
  eexists. split; [reflexivity |]. split; [reflexivity |].
  split; [reflexivity |]. split; [reflexivity |].
  intros [_ Hsize]. vm_compute in Hsize. discriminate.
Qed.

End Lockstep.

(** * The wire: outgoing lines, buffered receive, reconnecting *)

Ltac run_prog :=
  cbv [mbind mret prog_bind prog_ret get modify emit lift pass]; simpl.

Section Wire.

Import Irc Samples.

Implicit Types (c : Connection) (msg : string).

Lemma length_app (a b : string) :
  String.length (a +:+ b) = (String.length a + String.length b)%nat.
Proof. induction a as [|x a IH]; simpl; [done | by rewrite IH]. Qed.

Lemma length_take n : ∀ s : string,
  (n ≤ String.length s)%nat → String.length (Py.take n s) = n.
Proof.
  induction n as [|n IH]; intros [|x s] Hle; simpl in *; try done; try lia.
  rewrite IH; [done | lia].
Qed.

Lemma send_line_short msg :
  (String.length msg ≤ MAX_MSG_CHARS)%nat → send_line msg = msg.
Proof.
  intros Hle. unfold send_line.
  destruct (Nat.ltb_spec MAX_MSG_CHARS (String.length msg)); [lia | done].
Qed.

Lemma send_line_long msg :
  (MAX_MSG_CHARS < String.length msg)%nat →
  send_line msg = Py.take 497 msg +:+ "..."
  ∧ String.length (send_line msg) = MAX_MSG_CHARS.
Proof.
  intros Hlt. unfold send_line.
  destruct (Nat.ltb_spec MAX_MSG_CHARS (String.length msg)); [| lia].
  split; [done |].
  rewrite length_app, length_take; [done |].
  unfold MAX_MSG_CHARS in *. lia.
Qed.

(** C6.  On a connection with a socket, [send] writes one payload: the
    line followed by CR LF.  A line of at most 500 characters (500
    included) is written as it is; a longer one is cut, not split: what is
    written is its first 497 characters followed by ["..."], 500
    characters in all. *)
Theorem send_caps_line c s msg :
  irc_socket c = Some s →
  ∃ line,
    send msg c = (c, [SocketSend (line +:+ Py.CRLF)], Ok tt)
    ∧ ((String.length msg ≤ 500)%nat → line = msg)
    ∧ ((500 < String.length msg)%nat →
       line = Py.take 497 msg +:+ "..." ∧ String.length line = 500%nat).
Proof.
  intros Hs. exists (send_line msg).
  split; [| split].
  - unfold send. run_prog. by rewrite Hs.
  - apply send_line_short.
  - apply send_line_long.
Qed.

Lemma send_caps_line_witness :
  ∃ line,
    send long_line (online []) = (online [], [SocketSend (line +:+ Py.CRLF)], Ok tt)
    ∧ ((String.length long_line ≤ 500)%nat → line = long_line)
    ∧ ((500 < String.length long_line)%nat →
       line = Py.take 497 long_line +:+ "..."
       ∧ String.length line = 500%nat).
Proof. apply (send_caps_line (online []) [] long_line). reflexivity. Defined.

(** A line feed at the end of the data stops [recv], whatever comes
    before it. *)
Lemma recv_continues_lf (data : bytes) :
  recv_continues (data ++ [LF]) = Ok false.
Proof. unfold recv_continues. by rewrite rev_unit. Qed.

(** So does a carriage return in the last place but one. *)
Lemma recv_continues_cr (data : bytes) (b : Byte.byte) :
  recv_continues (data ++ [CR; b]) = Ok false.
Proof.
  unfold recv_continues.
  replace (data ++ [CR; b]) with ((data ++ [CR]) ++ [b])
    by by rewrite <- app_assoc.
  rewrite !rev_unit. by destruct (Byte.eqb b LF).
Qed.

(** The test of the loop lets [recv] return exactly on data that end
    with a line feed or have a carriage return in the last place but
    one. *)
Lemma recv_continues_false (data : bytes) :
  recv_continues data = Ok false ↔
  data = [] ∨ (∃ d, data = d ++ [LF]) ∨ (∃ d b, data = d ++ [CR; b]).
Proof.
  split.
  - unfold recv_continues.
    destruct (rev data) as [|last before] eqn:Erev.
    + intros _. left. apply (f_equal (@rev _)) in Erev.
      by rewrite rev_involutive in Erev.
    + apply (f_equal (@rev _)) in Erev. rewrite rev_involutive in Erev.
      simpl in Erev. subst data.
      destruct (Byte.eqb last LF) eqn:Elast; simpl.
      * apply Byte.byte_dec_bl in Elast as ->. intros _. right. left. eauto.
      * destruct before as [|prev before]; [done |].
        destruct (Byte.eqb prev CR) eqn:Eprev; [| done].
        apply Byte.byte_dec_bl in Eprev as ->. intros _. right. right.
        exists (rev before), last. simpl. by rewrite <- app_assoc.
  - intros [-> | [[d ->] | (d & b & ->)]];
      [done | apply recv_continues_lf | apply recv_continues_cr].
Qed.

Section RecvFacts.

Variable decode : bytes → string.

(** A first read that is empty raises [IRCSocketError]. *)
Lemma recv_first_read_empty fuel (s : socket) :
  recv decode fuel (Chunk [] :: s) = (Some (Raise IRCSocketError), s)
  ∧ recv decode fuel [] = (Some (Raise IRCSocketError), []).
Proof. by destruct fuel. Qed.

(** An empty read after the first one changes nothing: once the peer has
    closed, the loop goes on reading for ever. *)
Lemma recv_loop_peer_closed fuel (data : bytes) :
  recv_continues data = Ok true →
  recv_loop decode fuel data [] = (None, []).
Proof.
  intros Hgo. induction fuel as [|fuel IH]; simpl; rewrite Hgo; [done |].
  by rewrite app_nil_r.
Qed.

(** C7 fails on the code.  [recv] returns the decoded data as soon as
    they end with a line feed, here on ["ab\n"], which does not end with
    CR LF; and when the peer closes after ["ab"], no amount of reading
    makes it return or raise. *)
Theorem recv_stops_without_crlf :
  (∀ fuel,
     recv decode fuel [Chunk [Byte.x61; Byte.x62; LF]]
     = (Some (Ok (decode [Byte.x61; Byte.x62; LF])), []))
  ∧ (∀ fuel, recv decode fuel [Chunk [Byte.x61; Byte.x62]] = (None, [])).
Proof.
  split; intros fuel.
  - by destruct fuel.
  - unfold recv. simpl. by apply recv_loop_peer_closed.
Qed.

(** A single byte that is not a line feed makes the test of the loop
    read [data[-2]] out of range. *)
Lemma recv_single_byte fuel (s : socket) :
  recv decode fuel (Chunk [Byte.x61] :: s) = (Some (Raise IndexError), s).
Proof. by destruct fuel. Qed.

End RecvFacts.

End Wire.

Section Reconnect.

Import Irc Samples.

Implicit Types (c : Connection) (msg : string).

(** [reconnect] with a delay other than zero closes the socket if there
    is one and starts a timer of that delay. *)
Lemma reconnect_timer_started c t :
  t ≠ 0 →
  ∃ c' out, reconnect (Some t) c = (c', out, Ok tt)
            ∧ connects out = [Some t]
            ∧ irc_socket c' = None ∧ reconnect_timer c' = Some t.
Proof.
  intros Ht. unfold reconnect, disconnect, time_truthy.
  apply Z.eqb_neq in Ht. rewrite Ht. run_prog.
  destruct (irc_socket c) eqn:Es; simpl; rewrite ?Es; simpl;
    eexists _, _; (split; [reflexivity |]); simpl; by rewrite ?Es.
Qed.

(** [reconnect] without a delay starts the connecting thread at once and
    arms no timer. *)
Lemma reconnect_at_once c :
  ∃ c' out, reconnect None c = (c', out, Ok tt)
            ∧ connects out = [None]
            ∧ irc_socket c' = None
            ∧ reconnect_timer c' = reconnect_timer c.
Proof.
  unfold reconnect, disconnect, time_truthy. run_prog.
  destruct (irc_socket c) eqn:Es; simpl; rewrite ?Es; simpl;
    eexists _, _; (split; [reflexivity |]); simpl; by rewrite ?Es.
Qed.

Lemma handle_msg_error c msg :
  Py.split_ws msg !! 0%nat = Some "ERROR" →
  handle_msg msg c =
    reconnect (Some (if Py.contains msg THROTTLED then 60 else 10)) c.
Proof.
  intros Hw. unfold handle_msg, word. rewrite Hw. run_prog.
  destruct (reconnect (Some (if Py.contains msg THROTTLED then 60 else 10)) c)
    as [[c' out] r] eqn:E.
  destruct (Py.contains msg THROTTLED); rewrite E;
    destruct r; by rewrite ?app_nil_r.
Qed.

Lemma recv_failed_running c :
  quitting c = false → recv_failed c = reconnect (Some 5) c.
Proof.
  intros Hq. unfold recv_failed. run_prog. rewrite Hq.
  destruct (reconnect (Some 5) c) as [[c' out] r] eqn:E.
  by destruct r.
Qed.

(** While the client is quitting, a failed read ends the loop and
    nothing is scheduled. *)
Lemma recv_failed_quitting c :
  quitting c = true → recv_failed c = (c, [], Ok tt).
Proof. intros Hq. unfold recv_failed. run_prog. by rewrite Hq. Qed.

Lemma handle_ping_timeout_reconnects c :
  handle_ping_timeout c
  = reconnect None (set_ping_timers c (ping_timer c) None).
Proof.
  unfold handle_ping_timeout. run_prog.
  destruct (reconnect None (set_ping_timers c (ping_timer c) None))
    as [[c' out] r] eqn:E.
  by destruct r.
Qed.

Section LoopFacts.

Variable decode : bytes → string.

(** A read that raises [OSError], or [IRCSocketError] which is one,
    takes [loop] to its [except] branch, and the loop ends there. *)
Lemma loop_recv_fails fuel c (s s' : socket) e :
  irc_socket c = Some s →
  recv decode fuel s = (Some (Raise e), s') →
  e = OSError ∨ e = IRCSocketError →
  loop decode (S fuel) c
  = Some (recv_failed (set_irc_socket c (Some s'))).
Proof.
  intros Hs Hrecv He. simpl. unfold conn_recv. rewrite Hs, Hrecv.
  run_prog.
  destruct (recv_failed (set_irc_socket c (Some s'))) as [[c2 out2] r].
  by destruct He as [-> | ->].
Qed.

End LoopFacts.

(** C8.  What is scheduled after each kind of failure:
    - a read that raises [OSError] (or [IRCSocketError], which is one) in
      [loop] while the client is not quitting: a timer of 5 seconds, and
      the loop ends;
    - a line whose first word is [ERROR] and that holds the text of the
      reconnect throttle: a timer of 60 seconds;
    - any other line whose first word is [ERROR]: a timer of 10 seconds;
    - the ping timeout: the connecting thread at once, with no timer. *)
Theorem reconnect_delay_by_failure :
  (∀ decode fuel c (s s' : socket) e,
     irc_socket c = Some s →
     recv decode fuel s = (Some (Raise e), s') →
     e = OSError ∨ e = IRCSocketError →
     quitting c = false →
     ∃ c' out, loop decode (S fuel) c = Some (c', out, Ok tt)
               ∧ connects out = [Some 5] ∧ reconnect_timer c' = Some 5)
  ∧ (∀ c msg,
       Py.split_ws msg !! 0%nat = Some "ERROR" →
       Py.contains msg THROTTLED = true →
       ∃ c' out, handle_msg msg c = (c', out, Ok tt)
                 ∧ connects out = [Some 60] ∧ reconnect_timer c' = Some 60)
  ∧ (∀ c msg,
       Py.split_ws msg !! 0%nat = Some "ERROR" →
       Py.contains msg THROTTLED = false →
       ∃ c' out, handle_msg msg c = (c', out, Ok tt)
                 ∧ connects out = [Some 10] ∧ reconnect_timer c' = Some 10)
  ∧ (∀ c,
       ∃ c' out, handle_ping_timeout c = (c', out, Ok tt)
                 ∧ connects out = [None]
                 ∧ reconnect_timer c' = reconnect_timer c).
Proof.
  split; [| split; [| split]].
  - intros decode fuel c s s' e Hs Hrecv He Hq.
    rewrite (loop_recv_fails decode fuel c s s' e Hs Hrecv He).
    rewrite recv_failed_running by done.
    destruct (reconnect_timer_started (set_irc_socket c (Some s')) 5)
      as (c' & out & -> & ? & ? & ?); [done | eauto].
  - intros c msg Hw Hin. rewrite (handle_msg_error c msg Hw), Hin.
    destruct (reconnect_timer_started c 60) as (c' & out & ? & ? & ? & ?);
      [done | eauto].
  - intros c msg Hw Hin. rewrite (handle_msg_error c msg Hw), Hin.
    destruct (reconnect_timer_started c 10) as (c' & out & ? & ? & ? & ?);
      [done | eauto].
  - intros c. rewrite handle_ping_timeout_reconnects.
    destruct (reconnect_at_once (set_ping_timers c (ping_timer c) None))
      as (c' & out & -> & ? & ? & ?).
    eauto.
Qed.

Lemma reconnect_delay_by_failure_witness :
  (∃ c' out, loop decode_latin1 1 (online [Fails]) = Some (c', out, Ok tt)
             ∧ connects out = [Some 5] ∧ reconnect_timer c' = Some 5)
  ∧ (∃ c' out, handle_msg error_throttled (online []) = (c', out, Ok tt)
               ∧ connects out = [Some 60] ∧ reconnect_timer c' = Some 60)
  ∧ (∃ c' out, handle_msg error_closing (online []) = (c', out, Ok tt)
               ∧ connects out = [Some 10] ∧ reconnect_timer c' = Some 10).
Proof.
  destruct reconnect_delay_by_failure as (H5 & H60 & H10 & _).
  split; [| split].
  - apply (H5 decode_latin1 0%nat (online [Fails]) [Fails] [] OSError);
      [reflexivity | reflexivity | by left | reflexivity].
  - apply H60; reflexivity.
  - apply H10; reflexivity.
Defined.

End Reconnect.

(** * The dispatch engine *)

Section Words.

Lemma app_empty_r (s : string) : s +:+ "" = s.
Proof.
  induction s as [|x s IH]; [done | exact (f_equal (String x) IH)].
Qed.

Lemma snoc_app (cur : string) (x : ascii) (suffix : string) :
  Py.snoc cur x +:+ suffix = cur +:+ String x suffix.
Proof.
  unfold Py.snoc.
  induction cur as [|y cur IH]; [done | exact (f_equal (String y) IH)].
Qed.

Lemma flush_nonempty (cur : string) : cur ≠ "" → Py.flush cur = [cur].
Proof. by destruct cur. Qed.




End Words.

Section Resolve.

Import Bot Samples.

Implicit Types (m : Irc.Message) (ch : Channel) (f : Handler).
Implicit Types (cmds : gmap string Handler) (key name : string).


Lemma matching_commands_spec cmds key name :
  name ∈ matching_commands cmds key ↔
  is_Some (cmds !! name) ∧ Py.startswith name key = true.
Proof.
  unfold matching_commands.
  rewrite list_elem_of_filter, list_elem_of_fmap. split.
  - intros [Hp ([n f] & -> & Hin)].
    apply elem_of_map_to_list in Hin. eauto.
  - intros [[f Hf] Hp]. split; [done |].
    exists (name, f). split; [done |]. by apply elem_of_map_to_list.
Qed.

Lemma matching_commands_NoDup cmds key :
  NoDup (matching_commands cmds key).
Proof. apply NoDup_filter, NoDup_fst_map_to_list. Qed.

Lemma matching_unique cmds key name :
  unique_match cmds key name → matching_commands cmds key = [name].
Proof.
  intros (Hreg & Hp & Huniq).
  assert (Hin : name ∈ matching_commands cmds key)
    by by apply matching_commands_spec.
  assert (Hall : ∀ x, x ∈ matching_commands cmds key → x = name).
  { intros x Hx. apply matching_commands_spec in Hx as [? ?]. by apply Huniq. }
  pose proof (matching_commands_NoDup cmds key) as Hnd.
  destruct (matching_commands cmds key) as [|a [|b l]].
  - by apply elem_of_nil in Hin.
  - f_equal. apply Hall. by left.
  - rewrite (Hall a), (Hall b) in Hnd by (repeat constructor).
    apply NoDup_cons in Hnd as [Hnotin _]. destruct Hnotin. by left.
Qed.

Lemma matching_single cmds key name :
  matching_commands cmds key = [name] → unique_match cmds key name.
Proof.
  intros Hl.
  assert (Hin : name ∈ matching_commands cmds key) by (rewrite Hl; by left).
  apply matching_commands_spec in Hin as [Hreg Hp].
  split; [done |]. split; [done |].
  intros name' Hreg' Hp'.
  assert (Hin' : name' ∈ matching_commands cmds key)
    by by apply matching_commands_spec.
  rewrite Hl in Hin'. by apply list_elem_of_singleton in Hin'.
Qed.

Lemma resolve_exact m ch w rest f :
  Irc.words m = w :: rest →
  commands ch !! Py.lower (Py.tail w) = Some f →
  resolve m ch
  = Ok (Some (f, {| cm_message := m; command := w; args := rest |})).
Proof.
  intros Hw Hf. unfold resolve, cmd_string_of, CommandMessage_init.
  rewrite Hw. cbv [mbind result_bind]. by rewrite Hf.
Qed.

Lemma resolve_prefix m ch w rest name f :
  Irc.words m = w :: rest →
  commands ch !! Py.lower (Py.tail w) = None →
  unique_match (commands ch) (Py.lower (Py.tail w)) name →
  commands ch !! name = Some f →
  resolve m ch
  = Ok (Some (f, {| cm_message := m; command := CMD_PREFIX +:+ name;
                    args := rest |})).
Proof.
  intros Hw Hnone Huniq Hf.
  unfold resolve, cmd_string_of, CommandMessage_init.
  rewrite Hw. cbv [mbind result_bind].
  by rewrite Hnone, (matching_unique _ _ _ Huniq), Hf.
Qed.

Lemma resolve_none m ch w rest :
  Irc.words m = w :: rest →
  commands ch !! Py.lower (Py.tail w) = None →
  (¬ ∃ name, unique_match (commands ch) (Py.lower (Py.tail w)) name) →
  resolve m ch = Ok None.
Proof.
  intros Hw Hnone Hno. unfold resolve, cmd_string_of.
  rewrite Hw. cbv [mbind result_bind]. rewrite Hnone.
  destruct (matching_commands _ _) as [|a [|b l]] eqn:El; [done | | done].
  destruct Hno. exists a. by apply matching_single.
Qed.

Lemma handle_command_none now m ch (b : Bot) :
  resolve m ch = Ok None → _handle_command now m ch b = (b, [], Ok tt).
Proof. intros Hr. unfold _handle_command. run_prog. by rewrite Hr. Qed.

(** Once resolved, the handler is called through
    [_maybe_send_cmd_reply], on a thread of its own if it asks for one. *)
Lemma handle_command_some now m ch f (c : CommandMessage) (b : Bot) :
  resolve m ch = Ok (Some (f, c)) →
  _handle_command now m ch b
  = ((if _is_threaded f then emit StartThread else pass);;
     _maybe_send_cmd_reply now f c) b.
Proof.
  intros Hr. unfold _handle_command. run_prog. rewrite Hr. simpl.
  destruct (_is_threaded f); simpl;
    by destruct (_maybe_send_cmd_reply now f c b) as [[b' out] r].
Qed.

End Resolve.

Section Throttle.

Import Bot Samples.

Implicit Types (b : Bot) (c : CommandMessage) (f : Handler).
Implicit Types (now : Z).

(** The state after a call that went through. *)
Abbreviation logged_call b now c :=
  (set_command_log b (<[command c := now]> (_command_log b))
                   (Some (invocation_of c))).

Lemma seconds_within_a_day (d k : Z) :
  0 ≤ d < 86400 * 1000000 → (seconds d <? k) = (d <? k * 1000000).
Proof.
  intros Hd. unfold seconds.
  rewrite Z.mod_small by (split; [apply Z.div_pos | apply Z.div_lt_upper_bound]; lia).
  destruct (Z.ltb_spec (d / 1000000) k), (Z.ltb_spec d (k * 1000000));
    try done; exfalso.
  - assert (k ≤ d / 1000000); [| lia].
    apply Z.div_le_lower_bound; lia.
  - assert (d / 1000000 < k); [| lia].
    apply Z.div_lt_upper_bound; lia.
Qed.

(** The outcome of the check for spam. *)
Lemma spam_check_spec now c b :
  spam_check now c b
  = (b, [],
     match _command_log b !! command c with
     | Some logged =>
         match Irc.is_admin (cm_user c) with
         | Some admin =>
             Ok (negb admin && (seconds (now - logged) <? threshold b c))
         | None => Raise AttributeError
         end
     | None => Ok false
     end).
Proof.
  unfold spam_check, get_is_admin. run_prog.
  destruct (_command_log b !! command c) as [logged|]; [| done].
  destruct (Irc.is_admin (cm_user c)) as [[|]|]; done.
Qed.

Lemma call_command_spec now f c b (throttled : bool) :
  spam_check now c b = (b, [], Ok throttled) →
  _call_command now f c b
  = if throttled then (b, [], Ok RNone)
    else (logged_call b now c, [], Ok (func f c)).
Proof.
  intros Hcheck. unfold _call_command.
  unfold mbind at 1. unfold prog_bind at 1. rewrite Hcheck.
  by destruct throttled.
Qed.

(** C3, as the code has it.  [_call_command] updates the log entry of
    the command and the last-command cursor exactly on the attempts that
    are not throttled: then the entry is the time of the attempt, the
    cursor is its host, command and arguments, and the handler is called.
    A throttled attempt is dropped before the log is written: the bot is
    left as it was and the handler is not called. *)
Theorem call_command_updates_log now f c b (throttled : bool) :
  spam_check now c b = (b, [], Ok throttled) →
  (throttled = true → _call_command now f c b = (b, [], Ok RNone))
  ∧ (throttled = false →
     ∃ b', _call_command now f c b = (b', [], Ok (func f c))
           ∧ _command_log b' !! command c = Some now
           ∧ _last_command b' = Some (invocation_of c)).
Proof.
  intros Hcheck. rewrite (call_command_spec now f c b throttled Hcheck).
  split; intros ->; [done |].
  eexists. split; [done |]. simpl. by rewrite lookup_insert_eq.
Qed.

Lemma call_command_updates_log_witness :
  _call_command second roll_func (command_of foo "!roll" []) rolled_bot
  = (rolled_bot, [], Ok RNone)
  ∧ ∃ b', _call_command (6 * second) roll_func (command_of foo "!roll" [])
            rolled_bot
          = (b', [], Ok (func roll_func (command_of foo "!roll" [])))
          ∧ _command_log b' !! "!roll" = Some (6 * second)
          ∧ _last_command b' = Some (Some "baz", "!roll", []).
Proof.
  split.
  - exact (proj1 (call_command_updates_log second roll_func
                    (command_of foo "!roll" []) rolled_bot true eq_refl)
                 eq_refl).
  - exact (proj2 (call_command_updates_log (6 * second) roll_func
                    (command_of foo "!roll" []) rolled_bot false eq_refl)
                 eq_refl).
Defined.

(** C3 as stated fails: [!roll] from another host, one second after the
    logged call, is throttled, and neither the log entry nor the cursor
    moves to this attempt. *)
Lemma call_command_updates_log_counterexample :
  ∃ b', _call_command second roll_func
          (command_of (sender "bar" "qux" false) "!roll" []) rolled_bot
        = (b', [], Ok RNone)
        ∧ _command_log b' !! "!roll" = Some 0
        ∧ _command_log b' !! "!roll" ≠ Some second
        ∧ _last_command b' = Some (Some "baz", "!roll", [])
        ∧ _last_command b' ≠ Some (Some "qux", "!roll", []).
Proof.
  exists rolled_bot. split; [reflexivity |]. repeat split; done.
Qed.

(** A command that is not in the log goes through, whoever sends it. *)
Lemma call_command_first now f c b :
  _command_log b !! command c = None →
  _call_command now f c b = (logged_call b now c, [], Ok (func f c)).
Proof.
  intros Hlog. apply (call_command_spec now f c b false).
  by rewrite spam_check_spec, Hlog.
Qed.

(** An admin is never throttled. *)
Lemma call_command_admin now f c b :
  Irc.is_admin (cm_user c) = Some true →
  _call_command now f c b = (logged_call b now c, [], Ok (func f c)).
Proof.
  intros Hadmin. apply (call_command_spec now f c b false).
  rewrite spam_check_spec, Hadmin. by destruct (_command_log b !! command c).
Qed.

(** For the others the whole seconds since the logged call are compared
    with the threshold. *)
Lemma call_command_non_admin now f c b logged :
  Irc.is_admin (cm_user c) = Some false →
  _command_log b !! command c = Some logged →
  0 ≤ now - logged < 86400 * 1000000 →
  _call_command now f c b
  = if now - logged <? threshold b c * 1000000
    then (b, [], Ok RNone)
    else (logged_call b now c, [], Ok (func f c)).
Proof.
  intros Hadmin Hlog Hday.
  apply (call_command_spec now f c b).
  rewrite spam_check_spec, Hadmin, Hlog. simpl.
  by rewrite seconds_within_a_day.
Qed.

(** After a call that went through, the threshold for the next call is
    three times the base when it is the same invocation, and the base
    otherwise. *)
Lemma threshold_after_call b now c c' :
  threshold (logged_call b now c) c'
  = if bool_decide (invocation_of c' = invocation_of c)
    then SPAM_THROTTLE * 3 else SPAM_THROTTLE.
Proof.
  unfold threshold. simpl.
  destruct (decide (invocation_of c' = invocation_of c)) as [->|Hne].
  - by rewrite !bool_decide_eq_true_2.
  - rewrite !bool_decide_eq_false_2; [done | done | congruence].
Qed.

(** C4, as the code has it.  A command [c] that is not in the log goes
    through at [t1]; the same command word comes again at [t2], less
    than a day later, as [c'].
    - From an admin, [c'] goes through.
    - From anyone else the threshold is 6 seconds (three times the base
      of 2) when [c'] has the host, command and arguments of [c], and 2
      seconds otherwise; [c'] is dropped when less than the threshold has
      passed and goes through otherwise.
    So of two identical commands the second is dropped when they are
    less than 2 seconds apart (and up to 6), and both go through from 6
    seconds on. *)
Theorem spam_throttle_windows f c c' b t1 t2 :
  _command_log b !! command c = None →
  command c' = command c →
  0 ≤ t2 - t1 < 86400 * 1000000 →
  ∃ b1,
    _call_command t1 f c b = (b1, [], Ok (func f c))
    ∧ (Irc.is_admin (cm_user c') = Some true →
       ∃ b2, _call_command t2 f c' b1 = (b2, [], Ok (func f c')))
    ∧ (Irc.is_admin (cm_user c') = Some false →
       threshold b1 c'
       = (if bool_decide (invocation_of c' = invocation_of c)
          then 6 else 2)
       ∧ (t2 - t1 < threshold b1 c' * 1000000 →
          _call_command t2 f c' b1 = (b1, [], Ok RNone))
       ∧ (threshold b1 c' * 1000000 ≤ t2 - t1 →
          ∃ b2, _call_command t2 f c' b1 = (b2, [], Ok (func f c')))).
Proof.
  intros Hnew Hsame Hday. exists (logged_call b t1 c).
  split; [by apply call_command_first |]. split.
  - intros Hadmin. rewrite call_command_admin by done. eauto.
  - intros Hother. split; [apply threshold_after_call |].
    assert (Hlog : _command_log (logged_call b t1 c) !! command c' = Some t1)
      by (simpl; by rewrite Hsame, lookup_insert_eq).
    rewrite (call_command_non_admin t2 f c' _ t1 Hother Hlog Hday).
    split; intros Hgap.
    + by rewrite (proj2 (Z.ltb_lt _ _) Hgap).
    + rewrite (proj2 (Z.ltb_ge _ _) Hgap). eauto.
Qed.

Lemma spam_throttle_windows_witness :
  ∃ b1,
    _call_command 0 roll_func (command_of foo "!roll" []) new_bot
    = (b1, [], Ok (RText "4"))
    ∧ _call_command second roll_func (command_of foo "!roll" []) b1
      = (b1, [], Ok RNone)
    ∧ (∃ b2, _call_command (6 * second) roll_func
               (command_of foo "!roll" []) b1
             = (b2, [], Ok (RText "4")))
    ∧ (∃ b2, _call_command second roll_func
               (command_of root "!roll" []) b1
             = (b2, [], Ok (RText "4"))).
Proof.
  destruct (spam_throttle_windows roll_func (command_of foo "!roll" [])
              (command_of foo "!roll" []) new_bot 0 second)
    as (b1 & Hfirst & _ & Hsoon); [reflexivity | reflexivity | done |].
  destruct (spam_throttle_windows roll_func (command_of foo "!roll" [])
              (command_of foo "!roll" []) new_bot 0 (6 * second))
    as (b1' & Hfirst' & _ & Hlate); [reflexivity | reflexivity | done |].
  destruct (spam_throttle_windows roll_func (command_of foo "!roll" [])
              (command_of root "!roll" []) new_bot 0 second)
    as (b1'' & Hfirst'' & Hadmin & _); [reflexivity | reflexivity | done |].
  assert (b1' = b1) as -> by congruence.
  assert (b1'' = b1) as -> by congruence.
  exists b1. split; [exact Hfirst |]. split; [| split].
  - destruct (Hsoon eq_refl) as (Hthr & Hdrop & _).
    apply Hdrop. rewrite Hthr. done.
  - destruct (Hlate eq_refl) as (Hthr & _ & Hgo).
    apply Hgo. rewrite Hthr. done.
  - exact (Hadmin eq_refl).
Defined.

(** C4 as stated fails: the same [!roll] from the same host with the same
    arguments, three seconds after the first, which is more than two
    seconds apart, is dropped. *)
Lemma spam_throttle_windows_counterexample :
  ∃ b1,
    _call_command 0 roll_func (command_of foo "!roll" []) new_bot
    = (b1, [], Ok (RText "4"))
    ∧ 2 * second < 3 * second - 0
    ∧ _call_command (3 * second) roll_func (command_of foo "!roll" []) b1
      = (b1, [], Ok RNone).
Proof. eexists. split; [reflexivity |]. split; [done | reflexivity]. Qed.

End Throttle.

(** ** Commands: from the typed word to the call of the handler *)

Section Commands.

Import Bot Samples.

Implicit Types (m : Irc.Message) (ch : Channel) (f : Handler).
Implicit Types (c : CommandMessage) (b : Bot) (now : Z).

(** What [_maybe_send_cmd_reply] sends to [target] for what the handler
    returned: nothing for [None], an empty text or an empty list. *)
Abbreviation reply_sent x target :=
  (match x with
   | RNone => []
   | RText s => if String.eqb s "" then [] else [SendMsg target s]
   | RList l => map (SendMsg target) l
   end).

(** The bot after a call of [c] at [now] that went through. *)
Abbreviation logged b now c :=
  (set_command_log b (<[command c := now]> (_command_log b))
                   (Some (invocation_of c))).

(** A call that the throttle lets through, as it does for a command
    that is not in the log: the handler is called with the command
    message, the call is logged, and what the handler returns is sent
    to the target of the message. *)
Lemma maybe_send_first now f c b :
  _command_log b !! command c = None →
  _maybe_send_cmd_reply now f c b
  = (logged b now c, reply_sent (func f c) (cm_target c), Ok tt).
Proof.
  intros Hlog. unfold _maybe_send_cmd_reply.
  cbv [mbind prog_bind]. rewrite (call_command_first now f c b Hlog).
  destruct (func f c) as [|s|l]; simpl; [done | |].
  - by destruct (String.eqb s "").
  - destruct l as [|x l]; [done |].
    by rewrite bool_decide_eq_false_2.
Qed.

Lemma handle_command_first now m ch f c b :
  resolve m ch = Ok (Some (f, c)) →
  _command_log b !! command c = None →
  _handle_command now m ch b
  = (logged b now c,
     (if _is_threaded f then [StartThread] else [])
     ++ reply_sent (func f c) (cm_target c),
     Ok tt).
Proof.
  intros Hres Hlog. rewrite (handle_command_some now m ch f c b Hres).
  destruct (_is_threaded f); cbv [mbind prog_bind emit pass mret prog_ret];
    by rewrite maybe_send_first.
Qed.



(** Shorthands: with [asdf] registered, [!a], [!as], [!asd] and [!asdf],
    in small letters or in capitals, call it, and what it is called
    with is [!asdf] for the shorthands and the word as typed for the
    full name; [!b] and [!asdfg] call nothing; with [roll] and [repo]
    registered, [!r] calls nothing. *)
Example command_shorthands :
  (∀ text, text ∈ ["!a"; "!as"; "!asd"; "!asdf"; "!A"; "!As"; "!ASD"] →
     _handle_command 0 (said foo text) chan_asdf (bot_with chan_asdf)
     = (set_command_log (bot_with chan_asdf) {[ "!asdf" := 0 ]}
          (Some (Some "baz", "!asdf", [])),
        [SendMsg "#chan" "test: !asdf"], Ok tt))
  ∧ _handle_command 0 (said foo "!ASDF") chan_asdf (bot_with chan_asdf)
    = (set_command_log (bot_with chan_asdf) {[ "!ASDF" := 0 ]}
         (Some (Some "baz", "!ASDF", [])),
       [SendMsg "#chan" "test: !ASDF"], Ok tt)
  ∧ (∀ text, text ∈ ["!b"; "!asdfg"; "!B"] →
       _handle_command 0 (said foo text) chan_asdf (bot_with chan_asdf)
       = (bot_with chan_asdf, [], Ok tt))
  ∧ _handle_command 0 (said foo "!r") chan_roll_repo
      (bot_with chan_roll_repo)
    = (bot_with chan_roll_repo, [], Ok tt).
Proof.
  split; [| split; [vm_compute; reflexivity | split]].
  - intros text Hin. repeat (apply elem_of_cons in Hin as [-> | Hin]);
      [vm_compute; reflexivity .. | by apply elem_of_nil in Hin].
  - intros text Hin. repeat (apply elem_of_cons in Hin as [-> | Hin]);
      [vm_compute; reflexivity .. | by apply elem_of_nil in Hin].
  - vm_compute. reflexivity.
Qed.

End Commands.

Section LogKeys.

Import Bot Samples.

Implicit Types (b : Bot) (c : CommandMessage) (f : Handler).
Implicit Types (m : Irc.Message) (ch : Channel) (now : Z).

(** [_call_command] leaves the bot as it was or logs the call. *)
Lemma call_command_state now f c b :
  (_call_command now f c b).1.1 = b
  ∨ (_call_command now f c b).1.1
    = set_command_log b (<[command c := now]> (_command_log b))
                      (Some (invocation_of c)).
Proof.
  pose proof (spam_check_spec now c b) as Hcheck.
  destruct (match _command_log b !! command c with
            | Some _ => _ | None => _ end) as [[|]|e] eqn:E.
  - rewrite (call_command_spec now f c b true Hcheck). by left.
  - rewrite (call_command_spec now f c b false Hcheck). by right.
  - unfold _call_command. unfold mbind at 1. unfold prog_bind at 1.
    rewrite Hcheck. by left.
Qed.

(** C9, as the code has it.  Two messages type a command word that is
    the same up to letter case but not the same.
    - When the word in lower case is a registered name, each call is
      made with the word as it was typed, ['!'] included, and logged under
      it: the keys differ, the first call leaves the entry of the
      second alone, and a second call with no entry of its own goes
      through whenever it comes.
    - When the word is not registered and one registered name starts
      with it, both calls are made and logged under ['!'] followed by
      that name as it is registered: they share the key. *)
Theorem command_log_keys ch m1 m2 typed1 typed2 rest1 rest2 :
  Irc.words m1 = (CMD_PREFIX +:+ typed1) :: rest1 →
  Irc.words m2 = (CMD_PREFIX +:+ typed2) :: rest2 →
  Py.lower typed1 = Py.lower typed2 →
  typed1 ≠ typed2 →
  (∀ f, commands ch !! Py.lower typed1 = Some f →
     ∃ c1 c2,
       resolve m1 ch = Ok (Some (f, c1))
       ∧ resolve m2 ch = Ok (Some (f, c2))
       ∧ command c1 = CMD_PREFIX +:+ typed1
       ∧ command c2 = CMD_PREFIX +:+ typed2
       ∧ command c1 ≠ command c2
       ∧ ∀ now1 b,
           let b1 := (_call_command now1 f c1 b).1.1 in
           _command_log b1 !! command c2 = _command_log b !! command c2
           ∧ (_command_log b !! command c1 = None →
              _command_log b1 !! command c1 = Some now1)
           ∧ (_command_log b !! command c2 = None →
              ∀ now2, ∃ b2,
                _call_command now2 f c2 b1 = (b2, [], Ok (func f c2))))
  ∧ (∀ name f,
       commands ch !! Py.lower typed1 = None →
       unique_match (commands ch) (Py.lower typed1) name →
       commands ch !! name = Some f →
       ∃ c1 c2,
         resolve m1 ch = Ok (Some (f, c1))
         ∧ resolve m2 ch = Ok (Some (f, c2))
         ∧ command c1 = CMD_PREFIX +:+ name
         ∧ command c2 = CMD_PREFIX +:+ name).
Proof.
  intros Hw1 Hw2 Hcase Hdiff. split.
  - intros f Hf.
    eexists _, _.
    split; [by apply (resolve_exact m1 ch (CMD_PREFIX +:+ typed1)) |].
    split; [apply (resolve_exact m2 ch (CMD_PREFIX +:+ typed2));
            [done | change (commands ch !! Py.lower typed2 = Some f);
                    by rewrite <- Hcase] |].
    split; [done |]. split; [done |].
    assert (Hne : CMD_PREFIX +:+ typed1 ≠ CMD_PREFIX +:+ typed2)
      by (intros [= ?]; done).
    split; [done |]. intros now1 b. simpl.
    set (c1 := {| cm_message := m1; command := CMD_PREFIX +:+ typed1;
                  args := rest1 |}).
    set (c2 := {| cm_message := m2; command := CMD_PREFIX +:+ typed2;
                  args := rest2 |}).
    assert (Hkeep : _command_log (_call_command now1 f c1 b).1.1
                    !! (CMD_PREFIX +:+ typed2)
                    = _command_log b !! (CMD_PREFIX +:+ typed2)).
    { destruct (call_command_state now1 f c1 b) as [-> | ->]; [done |].
      simpl. by rewrite lookup_insert_ne. }
    split; [done |]. split.
    + intros Hnew. rewrite (call_command_first now1 f c1 b Hnew). simpl.
      by rewrite lookup_insert_eq.
    + intros Hnew now2. eexists.
      apply (call_command_first now2 f c2). simpl. by rewrite Hkeep.
  - intros name f Hnone Huniq Hf.
    exists {| cm_message := m1; command := CMD_PREFIX +:+ name;
              args := rest1 |},
           {| cm_message := m2; command := CMD_PREFIX +:+ name;
              args := rest2 |}.
    split; [by apply (resolve_prefix m1 ch (CMD_PREFIX +:+ typed1)
                        rest1 name f) |].
    split; [| by split].
    apply (resolve_prefix m2 ch (CMD_PREFIX +:+ typed2) rest2 name f);
      [done | | | done].
    + change (commands ch !! Py.lower typed2 = None). by rewrite <- Hcase.
    + change (unique_match (commands ch) (Py.lower typed2) name).
      by rewrite <- Hcase.
Qed.

Lemma command_log_keys_witness :
  ∃ c1 c2,
    resolve (said foo "!roll") chan_roll = Ok (Some (roll_func, c1))
    ∧ resolve (said foo "!Roll") chan_roll = Ok (Some (roll_func, c2))
    ∧ command c1 = "!roll" ∧ command c2 = "!Roll"
    ∧ command c1 ≠ command c2
    ∧ ∀ now2, ∃ b2,
        _call_command now2 roll_func c2
          (_call_command 0 roll_func c1 new_bot).1.1
        = (b2, [], Ok (func roll_func c2)).
Proof.
  assert (Hdiff : "roll" ≠ "Roll") by (intros [=]).
  destruct (command_log_keys chan_roll (said foo "!roll") (said foo "!Roll")
              "roll" "Roll" [] [] eq_refl eq_refl eq_refl Hdiff)
    as [Hexact _].
  destruct (Hexact roll_func eq_refl)
    as (c1 & c2 & Hr1 & Hr2 & Hk1 & Hk2 & Hne & Hlog).
  exists c1, c2.
  split; [exact Hr1 |]. split; [exact Hr2 |].
  split; [exact Hk1 |]. split; [exact Hk2 |]. split; [exact Hne |].
  destruct (Hlog 0 new_bot) as (_ & _ & Hgo).
  apply Hgo. rewrite Hk2. reflexivity.
Defined.

(** C9 as stated fails: [!ro] and [!RO] differ only in letter case and
    call the same registered command, yet both are logged under
    [!roll], and the second, one second after the first, is throttled by
    it. *)
Lemma command_log_keys_counterexample :
  resolve (said foo "!ro") chan_roll
  = Ok (Some (roll_func, {| cm_message := said foo "!ro";
                            command := "!roll"; args := [] |}))
  ∧ resolve (said foo "!RO") chan_roll
    = Ok (Some (roll_func, {| cm_message := said foo "!RO";
                              command := "!roll"; args := [] |}))
  ∧ _handle_command 0 (said foo "!ro") chan_roll new_bot
    = (rolled_bot, [SendMsg "#chan" "4"], Ok tt)
  ∧ _command_log rolled_bot = {[ "!roll" := 0 ]}
  ∧ _handle_command second (said foo "!RO") chan_roll rolled_bot
    = (rolled_bot, [], Ok tt).
Proof. repeat split; vm_compute; reflexivity. Qed.

End LogKeys.

Section Replies.

Import Bot Samples.

Implicit Types (b : Bot) (m : Irc.Message) (ch : Channel) (now : Z).
Implicit Types (log : gmap string (gmap string datetime)).

Lemma list_remove_length (x : string) (l : list string) :
  (length (list_remove x l) ≤ length l)%nat.
Proof.
  induction l as [|y l IH]; simpl; [done |].
  destruct (String.eqb y x); simpl; lia.
Qed.

(** The rounds [_call_repliers] allows are enough: the loop ends because
    the position is past the end of the list, and more rounds change
    nothing. *)
Lemma throttle_loop_fuel fuel : ∀ extra now chan i (l : list string) log,
  (length l ≤ i + fuel)%nat →
  throttle_loop (fuel + extra) now chan i l log
  = throttle_loop fuel now chan i l log.
Proof.
  induction fuel as [|fuel IH]; intros extra now chan i l log Hlen.
  - assert (Hend : l !! i = None) by (apply lookup_ge_None; lia).
    destruct extra; simpl; [done | by rewrite Hend].
  - simpl. destruct (l !! i) as [reply|] eqn:Ei; [| done].
    apply IH.
    destruct (_ !! reply) as [sent|]; [| lia].
    destruct (_ <? _); [| lia].
    pose proof (list_remove_length reply l). lia.
Qed.

(** One reply: it is dropped when the same text was logged for the
    channel less than [SPAM_THROTTLE] seconds ago, and the time of this
    attempt is logged either way. *)
Lemma throttle_loop_single now chan (text : string) log :
  throttle_loop 1 now chan 0 [text] log
  = (match default ∅ (log !! chan) !! text with
     | Some sent =>
         if seconds (now - sent) <? SPAM_THROTTLE then [] else [text]
     | None => [text]
     end,
     <[chan := <[text := now]> (default ∅ (log !! chan))]> log).
Proof.
  simpl. destruct (log !! chan) as [chan_log|] eqn:Elog; simpl.
  - rewrite Elog. simpl.
    destruct (chan_log !! text) as [sent|]; [| done].
    destruct (_ <? _); [| done]. simpl. by rewrite String.eqb_refl.
  - rewrite lookup_insert_eq. simpl. rewrite lookup_empty.
    by rewrite insert_insert_eq.
Qed.

(** C5 fails on the code.  The loop removes from the list it runs over,
    so the reply after a dropped one is skipped.  Both texts were sent
    in [#chan] at time 0 and both repliers give them again one second
    later, to a sender who is no admin: the first is dropped, the second
    is in the batch that goes out, and its time in the log is still 0. *)
Theorem reply_after_dropped_one_sent :
  _reply_log replied_bot
  = {[ "#chan" := {[ "I always work" := 0; "So do I" := 0 ]} ]}
  ∧ _call_repliers second chan_replies (said foo "hello") replied_bot
    = (set_reply_log replied_bot
         {[ "#chan" := {[ "I always work" := second; "So do I" := 0 ]} ]},
       [], Ok ["So do I"])
  ∧ _handle_privmsg second (said foo "hello") replied_bot
    = (set_reply_log replied_bot
         {[ "#chan" := {[ "I always work" := second; "So do I" := 0 ]} ]},
       [SendMsg "#chan" "So do I"], Ok tt).
Proof. repeat split; vm_compute; reflexivity. Qed.

(** With one replier the throttle does what it is meant to do: a text
    logged for the channel less than two seconds ago is dropped, any
    other goes out, and the attempt is logged either way. *)
Lemma call_repliers_single now ch m b (text : string) :
  replies ch = [fun _ => RText text] →
  text ≠ "" →
  Irc.is_admin (Irc.user m) = Some false →
  _call_repliers now ch m b
  = (set_reply_log b
       (<[channel ch := <[text := now]>
                          (default ∅ (_reply_log b !! channel ch))]>
          (_reply_log b)),
     [],
     Ok (match default ∅ (_reply_log b !! channel ch) !! text with
         | Some sent =>
             if seconds (now - sent) <? SPAM_THROTTLE then [] else [text]
         | None => [text]
         end)).
Proof.
  intros Hreplies Htext Hadmin.
  assert (Hcollect : collect_replies (replies ch) m [] = [text]).
  { rewrite Hreplies. simpl. apply String.eqb_neq in Htext.
    by rewrite Htext. }
  unfold _call_repliers, get_is_admin. rewrite Hcollect, Hadmin.
  change (length [text]) with 1%nat.
  cbv [mbind mret prog_bind prog_ret get modify emit lift pass negb].
  by rewrite throttle_loop_single.
Qed.

End Replies.

(** * Further properties

    ** Splitting strings *)

Section Splitting.

Implicit Types (s cur a b rest : string) (sep : ascii).

Lemma split_on_from_skip sep a : ∀ cur rest,
  Py.has_char sep a = false →
  Py.split_on_from sep cur (a +:+ rest)
  = Py.split_on_from sep (cur +:+ a) rest.
Proof.
  induction a as [|x a IH]; intros cur rest Hno.
  - by rewrite app_empty_r.
  - simpl in Hno. apply orb_false_iff in Hno as [Hx Hno].
    change (String x a +:+ rest) with (String x (a +:+ rest)).
    simpl. rewrite Hx, IH by done. by rewrite snoc_app.
Qed.

Lemma split_on_from_sep sep cur rest :
  Py.split_on_from sep cur (String sep rest)
  = cur :: Py.split_on_from sep "" rest.
Proof. simpl. by rewrite Ascii.eqb_refl. Qed.

(** A string without the separator is one piece. *)
Lemma split_on_whole sep a :
  Py.has_char sep a = false → Py.split_on sep a = [a].
Proof.
  intros Hno. unfold Py.split_on.
  rewrite <- (app_empty_r a) at 1.
  by rewrite split_on_from_skip.
Qed.

(** The first piece ends at the first separator. *)
Lemma split_on_first sep a b :
  Py.has_char sep a = false →
  Py.split_on sep (a +:+ String sep b) = a :: Py.split_on sep b.
Proof.
  intros Hno. unfold Py.split_on.
  by rewrite split_on_from_skip, split_on_from_sep.
Qed.

Lemma split_on_from_nonempty sep s : ∀ cur,
  ∃ b more, Py.split_on_from sep cur s = b :: more.
Proof.
  induction s as [|x s IH]; intros cur; simpl; [by eauto |].
  destruct (Ascii.eqb x sep); eauto.
Qed.

(** A string with the separator has at least two pieces. *)
Lemma split_on_two sep s :
  Py.has_char sep s = true →
  ∃ a b more, Py.split_on sep s = a :: b :: more.
Proof.
  unfold Py.split_on. generalize "" as cur.
  induction s as [|x s IH]; intros cur Hhas; [done |].
  simpl in *. destruct (Ascii.eqb x sep); simpl in Hhas.
  - destruct (split_on_from_nonempty sep s "") as (b & more & ->). eauto.
  - by apply IH.
Qed.

End Splitting.

(** ** Identities and messages *)

Section Identity.

Import Irc Samples.

Lemma has_char_app (c : ascii) (a b : string) :
  Py.has_char c (a +:+ b) = Py.has_char c a || Py.has_char c b.
Proof.
  induction a as [|x a IH]; [done |].
  change (String x a +:+ b) with (String x (a +:+ b)).
  simpl. by rewrite IH, orb_assoc.
Qed.

(** The colon in front of a source is optional. *)
Lemma from_ircformat_plain (s : string) :
  s ≠ "" → Py.startswith s ":" = false →
  from_ircformat s = from_ircformat (":" +:+ s).
Proof.
  destruct s as [|c r]; [done |]. intros _ Hc.
  change (Py.startswith (String c r) ":")
    with (Ascii.eqb ":" c && Py.startswith r "") in Hc.
  replace (Py.startswith r "") with true in Hc by by destruct r.
  rewrite andb_true_r, Ascii.eqb_sym in Hc.
  change (":" +:+ String c r) with (String ":" (String c r)).
  unfold from_ircformat. by rewrite Hc.
Qed.

Lemma from_ircformat_colon (nick ident host : string) :
  Py.has_char "!" nick = false →
  Py.has_char "!" ident = false → Py.has_char "@" ident = false →
  Py.has_char "!" host = false → Py.has_char "@" host = false →
  from_ircformat (":" +:+ nick +:+ "!" +:+ ident +:+ "@" +:+ host)
  = Ok {| nick := nick; host := Some host;
          ident := strip_ident (Some ident); is_admin := None |}.
Proof.
  intros Hn Hi1 Hi2 Hh1 Hh2.
  change (":" +:+ nick +:+ "!" +:+ ident +:+ "@" +:+ host)
    with (String ":" (nick +:+ String "!" (ident +:+ String "@" host))).
  unfold from_ircformat. rewrite Ascii.eqb_refl.
  rewrite (split_on_first "!" nick) by done.
  rewrite (split_on_whole "!");
    [| rewrite has_char_app, Hi1; simpl; by rewrite Hh1].
  rewrite (split_on_first "@" ident), (split_on_whole "@" host) by done.
  unfold User_init, strip_host. by rewrite Hh2, andb_false_r.
Qed.

(** X1.  A source [nick!ident@host], with or without a colon in front,
    whose nick holds no ['!'] and whose ident and host hold neither ['!']
    nor ['@'], is parsed into that nick, that host and the ident without
    a leading tilde. *)
Theorem from_ircformat_parses (nick ident host : string) :
  Py.has_char "!" nick = false → Py.startswith nick ":" = false →
  Py.has_char "!" ident = false → Py.has_char "@" ident = false →
  Py.has_char "!" host = false → Py.has_char "@" host = false →
  let u := {| nick := nick; host := Some host;
              ident := strip_ident (Some ident); is_admin := None |} in
  from_ircformat (nick +:+ "!" +:+ ident +:+ "@" +:+ host) = Ok u
  ∧ from_ircformat (":" +:+ nick +:+ "!" +:+ ident +:+ "@" +:+ host) = Ok u.
Proof.
  intros Hn Hcolon Hi1 Hi2 Hh1 Hh2 u.
  assert (Hc : from_ircformat
                 (":" +:+ nick +:+ "!" +:+ ident +:+ "@" +:+ host) = Ok u)
    by by apply from_ircformat_colon.
  split; [| done]. rewrite from_ircformat_plain; [done | |].
  - by destruct nick.
  - destruct nick as [|x nick]; [done |].
    change (Py.startswith (String x nick) ":")
      with (Ascii.eqb ":" x && Py.startswith nick "") in Hcolon.
    change (Py.startswith (String x nick +:+ "!" +:+ ident +:+ "@" +:+ host)
                          ":")
      with (Ascii.eqb ":" x
            && Py.startswith (nick +:+ "!" +:+ ident +:+ "@" +:+ host) "").
    replace (Py.startswith nick "") with true in Hcolon by by destruct nick.
    rewrite andb_true_r in Hcolon. by rewrite Hcolon.
Qed.

Lemma from_ircformat_parses_witness :
  from_ircformat "alice!~al@home.example"
  = Ok {| nick := "alice"; host := Some "home.example";
          ident := Some "al"; is_admin := None |}
  ∧ from_ircformat ":alice!~al@home.example"
    = Ok {| nick := "alice"; host := Some "home.example";
            ident := Some "al"; is_admin := None |}.
Proof.
  apply (from_ircformat_parses "alice" "~al" "home.example"); reflexivity.
Defined.

(** X2.  [from_ircformat] raises [IndexError] exactly on the empty string
    and on a source that, the leading colon apart, holds no ['!']. *)
Theorem from_ircformat_index_error (s : string) :
  from_ircformat s = Raise IndexError ↔
  s = "" ∨ Py.has_char "!" (if Py.startswith s ":" then Py.tail s else s)
           = false.
Proof.
  destruct s as [|c r]; [by split; [left |] |].
  change (Py.startswith (String c r) ":")
    with (Ascii.eqb ":" c && Py.startswith r "").
  replace (Py.startswith r "") with true by by destruct r.
  rewrite andb_true_r, (Ascii.eqb_sym ":" c).
  unfold from_ircformat.
  set (body := if Ascii.eqb c ":" then r else String c r).
  replace (if Ascii.eqb c ":" then Py.tail (String c r) else String c r)
    with body by (unfold body; by destruct (Ascii.eqb c ":")).
  destruct (Py.has_char "!" body) eqn:Hbang.
  - destruct (split_on_two "!" body Hbang) as (a & b & more & ->).
    split; [| by intros [? | ?]].
    by destruct (Py.split_on "@" b) as [|? [|? [|? ?]]].
  - rewrite (split_on_whole "!" body Hbang). split; [by right | done].
Qed.

End Identity.

Section SplitJoin.

Implicit Types (s cur w : string) (ws : list string).

Lemma split_ws_from_space (c : ascii) s cur :
  Py.isspace c = true →
  Py.split_ws_from cur (String c s)
  = Py.flush cur ++ Py.split_ws_from "" s.
Proof. intros Hc. simpl. by rewrite Hc. Qed.

Lemma split_ws_from_word w : ∀ cur s,
  Py.has_space w = false →
  Py.split_ws_from cur (w +:+ s) = Py.split_ws_from (cur +:+ w) s.
Proof.
  induction w as [|x w IH]; intros cur s Hw.
  - by rewrite app_empty_r.
  - simpl in Hw. apply orb_false_iff in Hw as [Hx Hw].
    change (String x w +:+ s) with (String x (w +:+ s)).
    simpl. rewrite Hx, IH by done. by rewrite snoc_app.
Qed.

Lemma has_space_app (a b : string) :
  Py.has_space (a +:+ b) = Py.has_space a || Py.has_space b.
Proof.
  induction a as [|x a IH]; [done |].
  change (String x a +:+ b) with (String x (a +:+ b)).
  simpl. by rewrite IH, orb_assoc.
Qed.

(** Every piece [split()] gives is a word. *)
Lemma split_ws_from_words s : ∀ cur,
  Py.has_space cur = false →
  Forall Py.is_word (Py.split_ws_from cur s).
Proof.
  assert (Hflush : ∀ cur, Py.has_space cur = false →
                          Forall Py.is_word (Py.flush cur)).
  { intros [|x cur] Hcur; constructor; [by split | constructor]. }
  induction s as [|x s IH]; intros cur Hcur; simpl; [by apply Hflush |].
  destruct (Py.isspace x) eqn:Hx.
  - apply Forall_app. split; [by apply Hflush | by apply IH].
  - apply IH. unfold Py.snoc. rewrite has_space_app, Hcur. simpl.
    by rewrite Hx.
Qed.

Lemma split_ws_words s : Forall Py.is_word (Py.split_ws s).
Proof. by apply split_ws_from_words. Qed.

(** Splitting the words joined by single spaces gives the words back. *)
Lemma split_ws_join ws :
  Forall Py.is_word ws → Py.split_ws (Py.join_sp ws) = ws.
Proof.
  unfold Py.split_ws.
  induction ws as [|w [|w' ws] IH]; intros Hws; [done | |].
  - apply Forall_cons in Hws as [[Hne Hw] _]. simpl.
    rewrite <- (app_empty_r w) at 1.
    rewrite split_ws_from_word by done. simpl. by rewrite flush_nonempty.
  - apply Forall_cons in Hws as [[Hne Hw] Hws].
    change (Py.join_sp (w :: w' :: ws))
      with (w +:+ String " " (Py.join_sp (w' :: ws))).
    rewrite split_ws_from_word by done.
    rewrite split_ws_from_space by done.
    change ("" +:+ w) with w. rewrite flush_nonempty by done.
    simpl. f_equal. by apply IH.
Qed.

(** White space at either end makes no difference to [split()]. *)
Lemma split_ws_lstrip s : Py.split_ws (Py.lstrip s) = Py.split_ws s.
Proof.
  unfold Py.split_ws. induction s as [|x s IH]; [done |].
  simpl. destruct (Py.isspace x) eqn:Hx; [done |].
  simpl. by rewrite Hx.
Qed.

Lemma split_ws_from_rstrip s : ∀ cur,
  Py.split_ws_from cur (Py.rstrip s) = Py.split_ws_from cur s.
Proof.
  induction s as [|x s IH]; intros cur; [done |].
  simpl. destruct (Py.rstrip s) as [|y r'] eqn:Er.
  - destruct (Py.isspace x) eqn:Hx; simpl.
    + rewrite <- IH. simpl. by rewrite app_nil_r.
    + rewrite Hx. by rewrite <- IH.
  - simpl. destruct (Py.isspace x); by rewrite <- IH.
Qed.

Lemma split_ws_strip s : Py.split_ws (Py.strip s) = Py.split_ws s.
Proof.
  unfold Py.strip, Py.split_ws.
  rewrite split_ws_from_rstrip. apply split_ws_lstrip.
Qed.

End SplitJoin.

Section Privmsg.

Import Irc Samples.

(** The words of a text made of words joined by single spaces, once its
    first character is cut off. *)
Lemma words_after_tail (rest : list string) :
  Forall Py.is_word rest →
  Py.split_ws (Py.strip (Py.tail (Py.join_sp rest)))
  = match rest with
    | [] => []
    | r0 :: rs =>
        if bool_decide (Py.tail r0 = "") then rs else Py.tail r0 :: rs
    end.
Proof.
  intros Hrest. rewrite split_ws_strip.
  destruct rest as [|r0 rs]; [done |].
  apply Forall_cons in Hrest as [[Hne Hr0] Hrs].
  destruct r0 as [|c r0]; [done |].
  simpl in Hr0. apply orb_false_iff in Hr0 as [_ Hr0].
  change (Py.tail (String c r0)) with r0.
  destruct rs as [|w ws].
  - change (Py.tail (Py.join_sp [String c r0])) with r0.
    case_bool_decide as Hempty; [by subst |].
    apply (split_ws_join [r0]). by repeat constructor.
  - change (Py.tail (Py.join_sp (String c r0 :: w :: ws)))
      with (r0 +:+ String " " (Py.join_sp (w :: ws))).
    case_bool_decide as Hempty.
    + subst. change ("" +:+ String " " (Py.join_sp (w :: ws)))
        with (String " " (Py.join_sp (w :: ws))).
      unfold Py.split_ws. rewrite split_ws_from_space by done.
      by apply split_ws_join.
    + apply (split_ws_join (r0 :: w :: ws)).
      constructor; [by split | done].
Qed.

(** X3.  [from_privmsg] on a line of at least three words whose first
    word, the colon apart, is a source: the sender is that source, the
    target is the third word, and the text is the rest of the words
    joined by single spaces, without its first character (the colon).
    The words of the message are those words again, the first without
    its first character, and dropped when nothing is left of it. *)
Theorem from_privmsg_words (msg w0 w1 w2 : string) (rest : list string) u :
  Py.split_ws msg = w0 :: w1 :: w2 :: rest →
  from_ircformat (Py.tail w0) = Ok u →
  from_privmsg msg
  = Ok {| user := u; target := w2;
          message := Py.tail (Py.join_sp rest);
          words := match rest with
                   | [] => []
                   | r0 :: rs =>
                       if bool_decide (Py.tail r0 = "") then rs
                       else Py.tail r0 :: rs
                   end |}.
Proof.
  intros Hsplit Hu. unfold from_privmsg, Message_init.
  rewrite Hsplit, Hu. cbv [mbind result_bind]. f_equal. f_equal.
  apply words_after_tail.
  pose proof (split_ws_words msg) as Hwords. rewrite Hsplit in Hwords.
  by do 3 apply Forall_cons in Hwords as [_ Hwords].
Qed.

Lemma from_privmsg_words_witness :
  from_privmsg ":alice!~al@home.example PRIVMSG #chan :!roll   2d6"
  = Ok {| user := alice; target := "#chan"; message := "!roll 2d6";
          words := ["!roll"; "2d6"] |}.
Proof.
  apply (from_privmsg_words _ ":alice!~al@home.example" "PRIVMSG" "#chan"
           [":!roll"; "2d6"] alice); reflexivity.
Defined.

End Privmsg.

(** ** The membership store, operation by operation *)

Section Store.

Import Irc Membership Samples.

Implicit Types (c : Channel) (u : User) (h n : string).

Lemma after_first_app (pre h : string) :
  Py.has_char "@" pre = false →
  Py.after_first "@" (pre +:+ String "@" h) = h.
Proof.
  induction pre as [|x pre IH]; [done |]. simpl. intros Hno.
  apply orb_false_iff in Hno as [Hx Hno].
  change (String x pre +:+ String "@" h)
    with (String x (pre +:+ String "@" h)).
  simpl. rewrite Hx. by apply IH.
Qed.

(** X4.  After [add_user] the user is found both ways: its nick under
    its host, given bare or as [ident@host], and its host under its
    nick. *)
Theorem add_user_then_find c u h :
  host u = Some h → Py.has_char "@" h = false →
  find_nick_from_host (add_user c u) h = Some (nick u)
  ∧ (∀ pre, Py.has_char "@" pre = false →
       find_nick_from_host (add_user c u) (pre +:+ "@" +:+ h)
       = Some (nick u))
  ∧ find_host_from_nick (add_user c u) (nick u) = Some (Some h).
Proof.
  intros Hh Hat. unfold find_nick_from_host, find_host_from_nick, add_user.
  simpl. rewrite Hh, Hat. split; [apply lookup_insert_eq |]. split.
  - intros pre Hpre.
    change (pre +:+ "@" +:+ h) with (pre +:+ String "@" h).
    rewrite has_char_app, Hpre. simpl.
    rewrite after_first_app by done. apply lookup_insert_eq.
  - apply lookup_insert_eq.
Qed.

Lemma add_user_then_find_witness :
  find_nick_from_host alice_home "home.example" = Some "alice"
  ∧ find_nick_from_host alice_home "~al@home.example" = Some "alice"
  ∧ find_host_from_nick alice_home "alice" = Some (Some "home.example").
Proof.
  destruct (add_user_then_find chan alice "home.example" eq_refl eq_refl)
    as (H1 & H2 & H3).
  split; [exact H1 |]. split; [| exact H3].
  exact (H2 "~al" eq_refl).
Defined.

(** The channel without the pair of a host and a nick. *)
Abbreviation without c h n :=
  (set_maps c (delete (Some h) (host_map c)) (delete n (nick_map c))).

(** Removal of a recorded pair, by nick or by host. *)
Lemma remove_user_paired c h n :
  host_map c !! Some h = Some n →
  nick_map c !! n = Some (Some h) →
  (n ≠ "" → ∀ other, remove_user c (Some n) other = Ok (without c h n))
  ∧ (h ≠ "" → Py.has_char "@" h = false →
     remove_user c None (Some h) = Ok (without c h n)).
Proof.
  intros Hh Hn. split.
  - intros Hne other. unfold remove_user.
    assert (Py.truthy (Some n) = true) as ->
      by (simpl; by apply negb_true_iff, String.eqb_neq).
    simpl. by rewrite Hn, Hh.
  - intros Hne Hat. unfold remove_user, strip_host.
    assert (Py.truthy (Some h) = true) as ->
      by (simpl; by apply negb_true_iff, String.eqb_neq).
    simpl. by rewrite Hat, Hh.
Qed.

(** X5.  A user recorded as a pair is removed by its nick, whatever host
    is given along with it, and by its host alone; both entries go
    either way. *)
Theorem remove_user_either_way c h n :
  host_map c !! Some h = Some n →
  nick_map c !! n = Some (Some h) →
  (n ≠ "" → ∀ other, remove_user c (Some n) other = Ok (without c h n))
  ∧ (h ≠ "" → Py.has_char "@" h = false →
     remove_user c None (Some h) = Ok (without c h n)).
Proof. apply remove_user_paired. Qed.

Lemma remove_user_either_way_witness :
  remove_user alice_home (Some "alice") (Some "bob@work.example") = Ok chan
  ∧ remove_user alice_home None (Some "home.example") = Ok chan.
Proof.
  destruct (remove_user_either_way alice_home "home.example" "alice"
              eq_refl eq_refl) as [Hnick Hhost].
  split.
  - rewrite (Hnick ltac:(done)). reflexivity.
  - rewrite (Hhost ltac:(done) eq_refl). reflexivity.
Defined.

(** X6.  Adding a user whose host and nick are new to the channel and
    removing it again, by nick or by host, gives the channel back. *)
Theorem add_then_remove c u h :
  host u = Some h → h ≠ "" → nick u ≠ "" →
  Py.has_char "@" h = false →
  host_map c !! Some h = None → nick_map c !! nick u = None →
  remove_user (add_user c u) (Some (nick u)) None = Ok c
  ∧ remove_user (add_user c u) None (Some h) = Ok c.
Proof.
  intros Hh Hne Hnick Hat Hfresh_h Hfresh_n.
  assert (Hback : without (add_user c u) h (nick u) = c).
  { unfold add_user. simpl. rewrite Hh.
    rewrite !delete_insert_id by done. by destruct c. }
  destruct (remove_user_paired (add_user c u) h (nick u)) as [Hn Hhost].
  - unfold add_user. simpl. rewrite Hh. apply lookup_insert_eq.
  - unfold add_user. simpl. rewrite Hh. apply lookup_insert_eq.
  - rewrite Hn, Hhost by done. by rewrite Hback.
Qed.

Lemma add_then_remove_witness :
  remove_user (add_user alice_home bob) (Some "bob") None = Ok alice_home
  ∧ remove_user (add_user alice_home bob) None (Some "work.example")
    = Ok alice_home.
Proof.
  apply (add_then_remove alice_home bob "work.example");
    done || reflexivity.
Defined.

(** X7.  [update_nick] moves the user to the new nick: the host gives the
    new nick, the new nick gives the host, the old nick is gone, and no
    other nick changes. *)
Theorem update_nick_renames c u h new_nick :
  host u = Some h → Py.has_char "@" h = false →
  find_nick_from_host (update_nick c u new_nick) h = Some new_nick
  ∧ find_host_from_nick (update_nick c u new_nick) new_nick
    = Some (Some h)
  ∧ (nick u ≠ new_nick →
     find_host_from_nick (update_nick c u new_nick) (nick u) = None)
  ∧ (∀ n, n ≠ new_nick → n ≠ nick u →
       find_host_from_nick (update_nick c u new_nick) n
       = find_host_from_nick c n).
Proof.
  intros Hh Hat.
  unfold find_nick_from_host, find_host_from_nick, update_nick. simpl.
  rewrite Hh, Hat. split; [apply lookup_insert_eq |].
  split; [apply lookup_insert_eq |]. split.
  - intros Hne. rewrite lookup_insert_ne by done. apply lookup_delete_eq.
  - intros n Hn1 Hn2.
    rewrite lookup_insert_ne by done. by rewrite lookup_delete_ne.
Qed.

Lemma update_nick_renames_witness :
  find_nick_from_host (update_nick alice_home alice "al") "home.example"
  = Some "al"
  ∧ find_host_from_nick (update_nick alice_home alice "al") "alice" = None.
Proof.
  destruct (update_nick_renames alice_home alice "home.example" "al"
              eq_refl eq_refl) as (H1 & _ & H3 & _).
  split; [exact H1 | by apply H3].
Defined.

End Store.

(** ** The wire, further *)

Section SendMsgFacts.

Import Irc Samples.

Variable strip_irc_formatting : text → text.

Implicit Types (c : Connection) (target : string).

Lemma send_line_bound (msg : string) :
  (String.length (send_line msg) ≤ MAX_MSG_CHARS)%nat.
Proof.
  destruct (Nat.le_gt_cases (String.length msg) MAX_MSG_CHARS) as [Hle|Hgt].
  - by rewrite send_line_short.
  - destruct (send_line_long msg Hgt) as [_ ->]. done.
Qed.

Lemma send_lines_connected target (lines : list string) c (s : socket) :
  irc_socket c = Some s →
  send_lines target lines c
  = (c, SocketSend <$> (privmsg_line target <$> lines), Ok tt).
Proof.
  intros Hs. induction lines as [|l lines IH]; [done |].
  simpl. unfold send at 1. run_prog. rewrite Hs. simpl.
  by rewrite IH.
Qed.

Lemma send_lines_disconnected target (lines : list string) c :
  irc_socket c = None → lines ≠ [] →
  send_lines target lines c = (c, [], Raise AttributeError).
Proof.
  intros Hs Hne. destruct lines as [|l lines]; [done |].
  simpl. unfold send at 1. run_prog. by rewrite Hs.
Qed.

(** X8.  On a connection with a socket [send_msg] writes one payload for
    every line of the message, in order: [PRIVMSG target :line] followed
    by CR LF, cut to the cap of [send] with the prefix counted in, so no
    payload is longer than 502 characters.  The connection is not
    changed.  Without a socket the first line raises [AttributeError] and
    nothing is written. *)
Theorem send_msg_line_by_line target (message : text) c :
  (∀ s : socket, irc_socket c = Some s →
     send_msg strip_irc_formatting target message c
     = (c,
        SocketSend
        <$> (privmsg_line target
             <$> lines_of strip_irc_formatting c target message),
        Ok tt)
     ∧ Forall (fun p => (String.length p ≤ 502)%nat)
              (privmsg_line target
               <$> lines_of strip_irc_formatting c target message)
     ∧ ∀ l, (String.length ("PRIVMSG " +:+ target +:+ " :" +:+ l) ≤ 500)%nat →
            privmsg_line target l
            = ("PRIVMSG " +:+ target +:+ " :" +:+ l) +:+ Py.CRLF)
  ∧ (irc_socket c = None →
     lines_of strip_irc_formatting c target message ≠ [] →
     send_msg strip_irc_formatting target message c
     = (c, [], Raise AttributeError)).
Proof.
  assert (Hsend : send_msg strip_irc_formatting target message c
                  = send_lines target
                      (lines_of strip_irc_formatting c target message) c).
  { unfold send_msg, lines_of. run_prog.
    by destruct (send_lines _ _ c) as [[c' out] r]. }
  split.
  - intros s Hs. rewrite Hsend. split; [by apply (send_lines_connected _ _ _ s) |].
    split.
    + apply Forall_fmap, Forall_forall. intros l _. simpl.
      unfold privmsg_line. rewrite length_app.
      pose proof (send_line_bound ("PRIVMSG " +:+ target +:+ " :" +:+ l)).
      unfold MAX_MSG_CHARS in *. simpl. lia.
    + intros l Hl. unfold privmsg_line.
      rewrite send_line_short; [done | exact Hl].
  - intros Hs Hne. rewrite Hsend. by apply send_lines_disconnected.
Qed.

End SendMsgFacts.

Section SendMsgWitness.

Import Irc Samples.

Lemma send_msg_line_by_line_witness :
  send_msg (fun t => t) "#chan" (Text two_lines) (online [])
  = (online [],
     [SocketSend ("PRIVMSG #chan :first" +:+ Py.CRLF);
      SocketSend ("PRIVMSG #chan :second" +:+ Py.CRLF)], Ok tt).
Proof.
  destruct (send_msg_line_by_line (fun t => t) "#chan" (Text two_lines)
              (online [])) as [Hsock _].
  destruct (Hsock [] eq_refl) as (-> & _ & _). reflexivity.
Defined.

End SendMsgWitness.

Section RecvMore.

Import Irc Samples.

Variable decode : bytes → string.

Implicit Types (data : bytes) (s : socket) (chunks : list bytes).

Lemma recv_loop_returns fuel : ∀ data s text s',
  recv_loop decode fuel data s = (Some (Ok text), s') →
  ∃ chunks,
    s = (Chunk <$> chunks) ++ s'
    ∧ text = decode (data ++ concat chunks)
    ∧ data ++ concat chunks ≠ []
    ∧ recv_continues (data ++ concat chunks) = Ok false.
Proof.
  induction fuel as [|fuel IH]; intros data s text s' Hret; simpl in Hret;
    destruct (recv_continues data) as [[|]|e] eqn:Hgo; try done.
  - destruct data as [|b data]; [done |]. injection Hret as <- <-.
    exists []. by rewrite !app_nil_r.
  - destruct s as [|[d|] s]; simpl in Hret; [| | done].
    + apply IH in Hret as (chunks & Hs & -> & Hne & Hstop).
      exists chunks. by rewrite app_nil_r in *.
    + apply IH in Hret as (chunks & -> & -> & Hne & Hstop).
      exists (d :: chunks). simpl. by rewrite app_assoc.
  - destruct data as [|b data]; [done |]. injection Hret as <- <-.
    exists []. by rewrite !app_nil_r.
Qed.

(** X9.  When [recv] returns, it has read some chunks off the socket and
    no more, the text is what they decode to put end to end, and these
    bytes are not empty and have a line feed at the end or a carriage
    return in the last place but one. *)
Theorem recv_returns fuel s text s' :
  recv decode fuel s = (Some (Ok text), s') →
  ∃ chunks,
    s = (Chunk <$> chunks) ++ s'
    ∧ chunks ≠ []
    ∧ text = decode (concat chunks)
    ∧ concat chunks ≠ []
    ∧ ((∃ d, concat chunks = d ++ [LF])
       ∨ (∃ d b, concat chunks = d ++ [CR; b])).
Proof.
  unfold recv. destruct s as [|[d|] s]; simpl; [| | done].
  - by destruct fuel.
  - intros Hret.
    apply recv_loop_returns in Hret as (chunks & -> & -> & Hne & Hstop).
    exists (d :: chunks). repeat (split; [done |]).
    apply recv_continues_false in Hstop as [Hnil | Hend]; [| done].
    simpl in Hnil. by rewrite Hnil in Hne.
Qed.

Lemma recv_loop_reassembles chunks : ∀ fuel data s',
  (length chunks ≤ fuel)%nat →
  (∀ j, (j < length chunks)%nat →
        recv_continues (data ++ concat (take j chunks)) = Ok true) →
  recv_continues (data ++ concat chunks) = Ok false →
  data ++ concat chunks ≠ [] →
  recv_loop decode fuel data ((Chunk <$> chunks) ++ s')
  = (Some (Ok (decode (data ++ concat chunks))), s').
Proof.
  induction chunks as [|d chunks IH]; intros fuel data s' Hfuel Hgo Hstop Hne.
  - simpl in *. rewrite app_nil_r in *.
    destruct fuel; simpl; rewrite Hstop; by destruct data.
  - destruct fuel as [|fuel]; [simpl in Hfuel; lia |].
    pose proof (Hgo 0%nat ltac:(simpl; lia)) as Hgo0.
    simpl in Hgo0. rewrite app_nil_r in Hgo0.
    simpl. rewrite Hgo0.
    rewrite IH.
    + by rewrite <- app_assoc.
    + simpl in Hfuel. lia.
    + intros j Hj. specialize (Hgo (S j) ltac:(simpl; lia)).
      simpl in Hgo. by rewrite <- app_assoc.
    + by rewrite <- app_assoc.
    + by rewrite <- app_assoc.
Qed.

(** X10.  A line that comes in several chunks is put together: when the
    bytes read so far let the loop go on after every chunk but the last,
    and stop after the last, [recv] returns all the chunks decoded as
    one text and leaves the rest of what the socket holds unread.  As
    many rounds as there are chunks are enough. *)
Theorem recv_reassembles chunks fuel s' :
  (length chunks ≤ S fuel)%nat →
  (∀ j, (0 < j < length chunks)%nat →
        recv_continues (concat (take j chunks)) = Ok true) →
  recv_continues (concat chunks) = Ok false →
  concat chunks ≠ [] →
  recv decode fuel ((Chunk <$> chunks) ++ s')
  = (Some (Ok (decode (concat chunks))), s').
Proof.
  intros Hfuel Hgo Hstop Hne.
  destruct chunks as [|d chunks]; [done |].
  unfold recv. simpl. apply recv_loop_reassembles; [| | done | done].
  - simpl in Hfuel. lia.
  - intros j Hj. apply (Hgo (S j)). simpl. lia.
Qed.

End RecvMore.

Section RecvWitness.

Import Irc Samples.

Lemma recv_returns_witness :
  ∃ chunks,
    [Chunk ping_head; Chunk ping_tail; Fails]
    = (Chunk <$> chunks) ++ [Fails]
    ∧ chunks ≠ []
    ∧ decode_latin1 (ping_head ++ ping_tail)
      = decode_latin1 (concat chunks)
    ∧ concat chunks ≠ []
    ∧ ((∃ d, concat chunks = d ++ [LF])
       ∨ (∃ d b, concat chunks = d ++ [CR; b])).
Proof.
  apply (recv_returns decode_latin1 1
           [Chunk ping_head; Chunk ping_tail; Fails]).
  reflexivity.
Defined.

Lemma recv_reassembles_witness :
  recv decode_latin1 1 [Chunk ping_head; Chunk ping_tail; Fails]
  = (Some (Ok ("PING :irc" +:+ Py.CRLF)), [Fails]).
Proof.
  apply (recv_reassembles decode_latin1 [ping_head; ping_tail] 1 [Fails]).
  - simpl. lia.
  - intros j Hj. simpl in Hj.
    assert (j = 1%nat) as -> by lia. reflexivity.
  - reflexivity.
  - done.
Defined.

End RecvWitness.

Section SocketConnect.

Import Irc Samples.

Implicit Types (cands : list attempt).

Lemma connect_loop_spec cands : ∀ i0,
  match connect_loop i0 cands None with
  | (Some i, closed) =>
      ∃ k, i = (i0 + k)%nat
           ∧ cands !! k = Some Connects
           ∧ (∀ j, (j < k)%nat → cands !! j ≠ Some Connects)
           ∧ ∀ j, j ∈ closed ↔
                  ∃ k', j = (i0 + k')%nat ∧ (k' < k)%nat
                        ∧ cands !! k' = Some ConnectFails
  | (None, closed) =>
      (Connects ∉ cands)
      ∧ ∀ j, j ∈ closed ↔
             ∃ k', j = (i0 + k')%nat ∧ cands !! k' = Some ConnectFails
  end.
Proof.
  induction cands as [|a cands IH]; intros i0; simpl.
  - split; [apply not_elem_of_nil |]. intros j. split.
    + by intros ?%elem_of_nil.
    + by intros (k' & _ & ?).
  - specialize (IH (S i0)).
    destruct a; simpl.
    + destruct (connect_loop (S i0) cands None) as [[i|] closed].
      * destruct IH as (k & -> & Hk & Hbefore & Hclosed).
        exists (S k). split; [lia |]. split; [done |]. split.
        { intros [|j] Hj; [done |]. apply Hbefore. lia. }
        intros j. rewrite Hclosed. split.
        { intros (k' & -> & Hlt & Hk'). exists (S k').
          split; [lia |]. split; [lia | done]. }
        { intros ([|k'] & -> & Hlt & Hk'); [done |]. exists k'.
          split; [lia |]. split; [lia | done]. }
      * destruct IH as (Hnone & Hclosed). split.
        { rewrite not_elem_of_cons. done. }
        intros j. rewrite Hclosed. split.
        { intros (k' & -> & Hk'). exists (S k'). split; [lia | done]. }
        { intros ([|k'] & -> & Hk'); [done |]. exists k'.
          split; [lia | done]. }
    + destruct (connect_loop (S i0) cands None) as [[i|] closed].
      * destruct IH as (k & -> & Hk & Hbefore & Hclosed).
        exists (S k). split; [lia |]. split; [done |]. split.
        { intros [|j] Hj; [done |]. apply Hbefore. lia. }
        intros j. rewrite elem_of_cons, Hclosed. split.
        { intros [-> | (k' & -> & Hlt & Hk')].
          - exists 0%nat. split; [lia |]. split; [lia | done].
          - exists (S k'). split; [lia |]. split; [lia | done]. }
        { intros ([|k'] & -> & Hlt & Hk'); [left; lia |]. right.
          exists k'. split; [lia |]. split; [lia | done]. }
      * destruct IH as (Hnone & Hclosed). split.
        { rewrite not_elem_of_cons. done. }
        intros j. rewrite elem_of_cons, Hclosed. split.
        { intros [-> | (k' & -> & Hk')].
          - exists 0%nat. split; [lia | done].
          - exists (S k'). split; [lia | done]. }
        { intros ([|k'] & -> & Hk'); [left; lia |]. right.
          exists k'. split; [lia | done]. }
    + exists 0%nat. split; [lia |]. split; [done |]. split.
      { intros j Hj. lia. }
      intros j. split; [by intros ?%elem_of_nil |].
      intros (k' & _ & Hlt & _). lia.
Qed.

(** X11.  [IRCSocket.connect] on a new socket object.  When
    [getaddrinfo] raises, its exception leaves [connect] as it is and no
    socket has been opened or closed.  When it gives addresses,
    [connect] connects to the first one for which both [socket.socket]
    and [connect] succeed, and closes exactly the sockets that were
    opened before it and could not connect; it raises [IRCSocketError]
    exactly when no address connects, and then every socket that was
    opened has been closed. *)
Theorem connect_first_that_works (getaddrinfo : result (list attempt)) :
  match getaddrinfo with
  | Raise e => IRCSocket_connect getaddrinfo = (Raise e, [])
  | Ok cands =>
      match IRCSocket_connect getaddrinfo with
      | (Ok i, closed) =>
          cands !! i = Some Connects
          ∧ (∀ j, (j < i)%nat → cands !! j ≠ Some Connects)
          ∧ ∀ j, j ∈ closed ↔ (j < i)%nat ∧ cands !! j = Some ConnectFails
      | (Raise e, closed) =>
          e = IRCSocketError
          ∧ (Connects ∉ cands)
          ∧ ∀ j, j ∈ closed ↔ cands !! j = Some ConnectFails
      end
  end.
Proof.
  destruct getaddrinfo as [cands|e]; [| done].
  unfold IRCSocket_connect.
  pose proof (connect_loop_spec cands 0) as Hspec.
  destruct (connect_loop 0 cands None) as [[i|] closed].
  - destruct Hspec as (k & -> & Hk & Hbefore & Hclosed).
    split; [done |]. split; [done |].
    intros j. rewrite Hclosed. split.
    + by intros (k' & -> & ? & ?).
    + intros [? ?]. by exists j.
  - destruct Hspec as (Hnone & Hclosed). split; [done |]. split; [done |].
    intros j. rewrite Hclosed. split.
    + by intros (k' & -> & ?).
    + intros ?. by exists j.
Qed.

End SocketConnect.

(** ** What the lines of the server do *)

Section HandleMsg.

Import Irc Samples.

Local Arguments from_ircformat : simpl never.
Local Arguments from_privmsg : simpl never.
Local Arguments remove_user : simpl never.
Local Arguments Py.contains : simpl never.
Local Arguments send_line : simpl never.

Implicit Types (c : Connection) (msg src : string) (u : User).
Implicit Types (ch : Channel).

(** The connection after a [PING] or [PONG] of the server. *)
Abbreviation pinged c := (set_ping_timers c (Some 300) None).

(** X12.  Keepalive.  A [PING] of the server re-arms the ping timer at
    300 seconds, clears the wait for a [PONG] and is answered with
    [PONG] and the token it came with; without a token the timers are
    set all the same and [IndexError] is raised.  A [PONG] sets the
    timers and sends nothing.  [send_ping] does nothing while a [PONG]
    is awaited; otherwise it sends [PING] with the host of the server
    and waits 10 seconds for the answer. *)
Theorem keepalive c (s : socket) :
  irc_socket c = Some s →
  (∀ msg token rest,
     Py.split_ws msg = "PING" :: token :: rest →
     handle_msg msg c
     = (pinged c, [SocketSend (send_line ("PONG " +:+ token) +:+ Py.CRLF)],
        Ok tt))
  ∧ (∀ msg, Py.split_ws msg = ["PING"] →
       handle_msg msg c = (pinged c, [], Raise IndexError))
  ∧ (∀ msg rest, Py.split_ws msg = "PONG" :: rest →
       handle_msg msg c = (pinged c, [], Ok tt))
  ∧ (∀ t, ping_response_timer c = Some t → send_ping c = (c, [], Ok tt))
  ∧ (ping_response_timer c = None →
     send_ping c
     = (set_ping_timers c (ping_timer c) (Some 10),
        [SocketSend (send_line ("PING " +:+ server_host c) +:+ Py.CRLF)],
        Ok tt)).
Proof.
  intros Hs. repeat split.
  - intros msg token rest Hsplit. unfold handle_msg, word. rewrite Hsplit.
    unfold send. run_prog. by rewrite Hs.
  - intros msg Hsplit. unfold handle_msg, word. by rewrite Hsplit.
  - intros msg rest Hsplit. unfold handle_msg, word. by rewrite Hsplit.
  - intros t Ht. unfold send_ping. run_prog. by rewrite Ht.
  - intros Ht. unfold send_ping, send. run_prog. by rewrite Ht, Hs.
Qed.

Lemma keepalive_witness :
  handle_msg "PING :irc.example" (online [])
  = (pinged (online []),
     [SocketSend ("PONG :irc.example" +:+ Py.CRLF)], Ok tt)
  ∧ handle_msg "PING" (online []) = (pinged (online []), [], Raise IndexError).
Proof.
  destruct (keepalive (online []) [] eq_refl) as (Hping & Hbare & _).
  split.
  - exact (Hping "PING :irc.example" ":irc.example" [] eq_refl).
  - exact (Hbare "PING" eq_refl).
Defined.

(** X13.  [quit] with a reconnect pending cancels it and does nothing
    else.  Otherwise, without a socket, it does nothing; with a socket it
    sets [quitting] and sends [QUIT] with the reason, and a read that
    fails after that ends the loop without a reconnect. *)
Theorem quit_cases c reason :
  (∀ t, reconnect_timer c = Some t →
     quit reason c = (set_reconnect_timer c None, [], Ok tt))
  ∧ (reconnect_timer c = None → irc_socket c = None →
     quit reason c = (c, [], Ok tt))
  ∧ (∀ s : socket,
       reconnect_timer c = None → irc_socket c = Some s →
       quit reason c
       = (set_quitting c true,
          [SocketSend (send_line ("QUIT :" +:+ reason) +:+ Py.CRLF)], Ok tt)
       ∧ ∀ decode fuel rest,
           s = Fails :: rest →
           loop decode (S fuel) (set_quitting c true)
           = Some (set_irc_socket (set_quitting c true) (Some rest), [],
                   Ok tt)).
Proof.
  split; [| split].
  - intros t Ht. unfold quit. run_prog. by rewrite Ht.
  - intros Ht Hs. unfold quit. run_prog. by rewrite Ht, Hs.
  - intros s Ht Hs. split.
    + unfold quit, send. run_prog. rewrite Ht, Hs. simpl. by rewrite Hs.
    + intros decode fuel rest ->.
      rewrite (loop_recv_fails decode fuel _ (Fails :: rest) rest OSError);
        [| done | by destruct fuel | by left].
      by rewrite recv_failed_quitting.
Qed.

Lemma quit_cases_witness :
  quit "Leaving" (online [Fails])
  = (set_quitting (online [Fails]) true,
     [SocketSend ("QUIT :Leaving" +:+ Py.CRLF)], Ok tt)
  ∧ loop decode_latin1 1 (set_quitting (online [Fails]) true)
    = Some (set_quitting (online []) true, [], Ok tt).
Proof.
  destruct (quit_cases (online [Fails]) "Leaving") as (_ & _ & Hsock).
  destruct (Hsock [Fails] eq_refl eq_refl) as [Hquit Hloop].
  split; [exact Hquit |].
  exact (Hloop decode_latin1 0%nat [] eq_refl).
Defined.

End HandleMsg.

Section Membership_lines.

Import Irc Samples.

Local Arguments from_ircformat : simpl never.
Local Arguments from_privmsg : simpl never.
Local Arguments remove_user : simpl never.
Local Arguments send_line : simpl never.
Local Arguments for_channels : simpl never.

Implicit Types (c : Connection) (msg src : string) (u : User).
Implicit Types (ch : Channel) (chs : gmap string Channel).

(** X14.  A [JOIN] of the client itself asks the server who is in the
    channel and records nothing.  A [JOIN] of anyone else records the
    user in the channel and calls the join callbacks; for a channel the
    client does not have it raises [KeyError] and changes nothing. *)
Theorem join_line c msg src chan rest u :
  Py.split_ws msg = String ":" src :: "JOIN" :: chan :: rest →
  from_ircformat (String ":" src) = Ok u →
  (∀ s : socket, nick u = conn_nick c → irc_socket c = Some s →
     handle_msg msg c
     = (c, [SocketSend (send_line ("WHO " +:+ chan) +:+ Py.CRLF)], Ok tt))
  ∧ (∀ ch, nick u ≠ conn_nick c → channels c !! chan = Some ch →
       handle_msg msg c
       = (set_channels c (<[chan := add_user ch u]> (channels c)),
          [OnJoin chan u], Ok tt))
  ∧ (nick u ≠ conn_nick c → channels c !! chan = None →
     handle_msg msg c = (c, [], Raise KeyError)).
Proof.
  intros Hsplit Hu.
  unfold handle_msg, word. rewrite Hsplit. run_prog. rewrite Hu.
  split; [| split].
  - intros s Hnick Hs. apply String.eqb_eq in Hnick. rewrite Hnick.
    unfold send. run_prog. by rewrite Hs.
  - intros ch Hnick Hch. apply String.eqb_neq in Hnick.
    by rewrite Hnick, Hch.
  - intros Hnick Hch. apply String.eqb_neq in Hnick. by rewrite Hnick, Hch.
Qed.

Lemma join_line_witness :
  handle_msg ":alice!~al@home.example JOIN #chan" (online [])
  = (set_channels (online []) {[ "#chan" := alice_home ]},
     [OnJoin "#chan" alice], Ok tt).
Proof.
  destruct (join_line (online []) ":alice!~al@home.example JOIN #chan"
              "alice!~al@home.example" "#chan" [] alice eq_refl eq_refl)
    as (_ & Hother & _).
  rewrite (Hother chan); [reflexivity | done | reflexivity].
Defined.

(** X15.  The answer to [WHO] (numeric 352) records the user it names:
    after it the nick is found under the host and the host under the
    nick in that channel.  For a channel the client does not have it
    raises [KeyError] and changes nothing. *)
Theorem who_reply_line c msg src me chan ident host srv nick rest :
  Py.split_ws msg
  = String ":" src :: "352" :: me :: chan :: ident :: host :: srv :: nick
    :: rest →
  (∀ ch, channels c !! chan = Some ch →
     ∃ ch',
       handle_msg msg c
       = (set_channels c (<[chan := ch']> (channels c)), [], Ok tt)
       ∧ ch' = add_user ch (User_init nick (Some host) (Some ident))
       ∧ find_host_from_nick ch' nick = Some (strip_host (Some host))
       ∧ (Py.has_char "@" host = false →
          find_nick_from_host ch' host = Some nick))
  ∧ (channels c !! chan = None →
     handle_msg msg c = (c, [], Raise KeyError)).
Proof.
  intros Hsplit.
  unfold handle_msg, word. rewrite Hsplit. run_prog.
  split.
  - intros ch Hch. rewrite Hch. eexists. split; [done |]. split; [done |].
    split.
    + unfold find_host_from_nick, add_user. simpl. apply lookup_insert_eq.
    + intros Hat. unfold find_nick_from_host, add_user, strip_host. simpl.
      rewrite Hat, andb_false_r. apply lookup_insert_eq.
  - intros Hch. by rewrite Hch.
Qed.

Lemma who_reply_line_witness :
  ∃ ch',
    handle_msg ":irc.example 352 bot #chan ~al home.example irc.example alice H :0 Al"
      (online [])
    = (set_channels (online []) (<["#chan" := ch']> {[ "#chan" := chan ]}),
       [], Ok tt)
    ∧ ch' = add_user chan (User_init "alice" (Some "home.example")
                             (Some "~al"))
    ∧ find_host_from_nick ch' "alice" = Some (Some "home.example")
    ∧ (Py.has_char "@" "home.example" = false →
       find_nick_from_host ch' "home.example" = Some "alice").
Proof.
  destruct (who_reply_line (online [])
              ":irc.example 352 bot #chan ~al home.example irc.example alice H :0 Al"
              "irc.example" "bot" "#chan" "~al" "home.example" "irc.example"
              "alice" ["H"; ":0"; "Al"] eq_refl) as [Hknown _].
  exact (Hknown chan eq_refl).
Defined.

(** A loop over the channels whose body never raises changes every
    channel by the same function and nothing else. *)
Lemma for_channels_pure (f : Channel → M Channel) (g : Channel → Channel) c :
  (∀ ch c0, f ch c0 = (c0, [], Ok (g ch))) →
  for_channels f c = (set_channels c (g <$> channels c), [], Ok tt).
Proof.
  intros Hf. unfold for_channels. cbv [mbind prog_bind get].
  assert (Hfold : ∀ c0,
    map_fold (fun name ch (acc : M unit) =>
                acc;; ch' ← f ch; put_channel name ch') pass (channels c) c0
    = (set_channels c0 ((g <$> channels c) ∪ channels c0), [], Ok tt)).
  { apply (map_fold_weak_ind (fun (r : M unit) (m : gmap string Channel) =>
      ∀ c0, r c0 = (set_channels c0 ((g <$> m) ∪ channels c0), [], Ok tt))).
    - intros c0. rewrite fmap_empty, (left_id_L ∅ (∪)). by destruct c0.
    - intros name ch m r Hfresh IH c0.
      cbv [mbind prog_bind]. rewrite IH, Hf.
      unfold put_channel, modify. simpl.
      by rewrite fmap_insert, insert_union_l. }
  rewrite Hfold. simpl. do 2 f_equal. f_equal.
  apply map_eq. intros name. rewrite lookup_union, !lookup_fmap.
  by destruct (channels c !! name).
Qed.

(** X16.  A [NICK] line renames the user in every channel that has its
    host with a nick that is not empty, and leaves the other channels as
    they are; the new nick is the third word without its colon. *)
Theorem nick_line c msg src w2 rest u h :
  Py.split_ws msg = String ":" src :: "NICK" :: w2 :: rest →
  from_ircformat (String ":" src) = Ok u →
  host u = Some h →
  handle_msg msg c
  = (set_channels c
       ((fun ch => if Py.truthy (find_nick_from_host ch h)
                   then update_nick ch u (Py.tail w2) else ch)
        <$> channels c),
     [], Ok tt).
Proof.
  intros Hsplit Hu Hh.
  unfold handle_msg, word. rewrite Hsplit. run_prog. rewrite Hu.
  unfold host_str. rewrite Hh. simpl.
  rewrite (for_channels_pure _
             (fun ch => if Py.truthy (find_nick_from_host ch h)
                        then update_nick ch u (Py.tail w2) else ch)).
  - done.
  - intros ch c0. by destruct (Py.truthy (find_nick_from_host ch h)).
Qed.

Lemma nick_line_witness :
  handle_msg ":alice!~al@home.example NICK :al"
    (set_channels (online []) {[ "#chan" := alice_home; "#other" := chan ]})
  = (set_channels (online [])
       {[ "#chan" := update_nick alice_home alice "al"; "#other" := chan ]},
     [], Ok tt).
Proof.
  rewrite (nick_line
             (set_channels (online [])
                {[ "#chan" := alice_home; "#other" := chan ]})
             ":alice!~al@home.example NICK :al"
             "alice!~al@home.example" ":al" [] alice
             "home.example" eq_refl eq_refl eq_refl).
  vm_compute. reflexivity.
Defined.

Lemma find_nick_normalised ch h :
  h ≠ "" →
  ∃ h', strip_host (Some h) = Some h'
        ∧ find_nick_from_host ch h = host_map ch !! Some h'.
Proof.
  intros Hne. unfold strip_host, find_nick_from_host.
  assert (Py.truthy (Some h) = true) as ->
    by (simpl; by apply negb_true_iff, String.eqb_neq).
  simpl. destruct (Py.has_char "@" h); eauto.
Qed.

(** Removing by a host that is not empty: the channel afterwards does not
    have the host, and is the channel as it was when it did not have it
    before. *)
Lemma remove_by_host ch h :
  h ≠ "" →
  ∃ ch', remove_user ch None (Some h) = Ok ch'
         ∧ find_nick_from_host ch' h = None
         ∧ (find_nick_from_host ch h = None → ch' = ch).
Proof.
  intros Hne.
  destruct (find_nick_normalised ch h Hne) as (h' & Hstrip & Hfind).
  unfold remove_user.
  assert (Py.truthy None || Py.truthy (Some h) = true) as ->
    by (simpl; by apply negb_true_iff, String.eqb_neq).
  simpl negb. cbv iota. rewrite Hstrip.
  eexists. split; [done |]. split.
  - unfold find_nick_from_host in *. unfold strip_host in Hstrip.
    replace (if Py.has_char "@" h then Py.after_first "@" h else h) with h'.
    + simpl. apply lookup_delete_eq.
    + destruct (Py.truthy (Some h) && Py.has_char "@" h) eqn:E;
        injection Hstrip as <-.
      * apply andb_true_iff in E as [_ ->]. done.
      * assert (Py.truthy (Some h) = true)
          by (simpl; by apply negb_true_iff, String.eqb_neq).
        rewrite H in E. simpl in E. by rewrite E.
  - rewrite Hfind. intros Hnone. rewrite Hnone.
    rewrite delete_id by done. by destruct ch.
Qed.

(** X17.  A [QUIT] line of a user with a host takes the host out of
    every channel that has it with a nick that is not empty; no channel
    comes or goes, and a channel that does not have the host is left as
    it is. *)
Theorem quit_line c msg src rest u h :
  Py.split_ws msg = String ":" src :: "QUIT" :: rest →
  from_ircformat (String ":" src) = Ok u →
  host u = Some h → h ≠ "" →
  ∃ chs,
    handle_msg msg c = (set_channels c chs, [], Ok tt)
    ∧ (∀ name, chs !! name = None ↔ channels c !! name = None)
    ∧ (∀ name ch', chs !! name = Some ch' →
         Py.truthy (find_nick_from_host ch' h) = false)
    ∧ (∀ name ch, channels c !! name = Some ch →
         Py.truthy (find_nick_from_host ch h) = false →
         chs !! name = Some ch).
Proof.
  intros Hsplit Hu Hh Hne.
  set (g := fun ch =>
         if Py.truthy (find_nick_from_host ch h)
         then match remove_user ch None (Some h) with
              | Ok ch' => ch'
              | Raise _ => ch
              end
         else ch).
  exists (g <$> channels c). split; [| split; [| split]].
  - unfold handle_msg, word. rewrite Hsplit. run_prog. rewrite Hu.
    unfold host_str. rewrite Hh. simpl.
    rewrite (for_channels_pure _ g); [done |].
    intros ch c0. unfold g.
    destruct (Py.truthy (find_nick_from_host ch h)); [| done].
    by destruct (remove_by_host ch h Hne) as (ch' & -> & _).
  - intros name. rewrite lookup_fmap. by destruct (channels c !! name).
  - intros name ch'. rewrite lookup_fmap.
    destruct (channels c !! name) as [ch|]; [| done].
    intros [= <-]. unfold g.
    destruct (Py.truthy (find_nick_from_host ch h)) eqn:Hknown; [| done].
    destruct (remove_by_host ch h Hne) as (ch' & -> & Hgone & _).
    by rewrite Hgone.
  - intros name ch Hch Hunknown. rewrite lookup_fmap, Hch. simpl.
    unfold g. by rewrite Hunknown.
Qed.

Lemma quit_line_witness :
  ∃ chs,
    handle_msg ":alice!~al@home.example QUIT :bye"
      (set_channels (online [])
         {[ "#chan" := alice_home; "#other" := add_user alice_home bob ]})
    = (set_channels (online []) chs, [], Ok tt)
    ∧ (∀ name ch', chs !! name = Some ch' →
         Py.truthy (find_nick_from_host ch' "home.example") = false).
Proof.
  destruct (quit_line
              (set_channels (online [])
                 {[ "#chan" := alice_home;
                    "#other" := add_user alice_home bob ]})
              ":alice!~al@home.example QUIT :bye" "alice!~al@home.example"
              [":bye"] alice "home.example" eq_refl eq_refl eq_refl)
    as (chs & Hrun & _ & Hgone & _); [done |].
  exists chs. split; [exact Hrun | exact Hgone].
Defined.

(** X18.  A [PART] line of a user with a host takes the host out of the
    channel it names and touches no other channel; a channel that did
    not have the host is left as it is.  For a channel the client does
    not have it raises [KeyError] and changes nothing. *)
Theorem part_line c msg src chan rest u h :
  Py.split_ws msg = String ":" src :: "PART" :: chan :: rest →
  from_ircformat (String ":" src) = Ok u →
  host u = Some h → h ≠ "" →
  (∀ ch, channels c !! chan = Some ch →
     ∃ ch',
       handle_msg msg c
       = (set_channels c (<[chan := ch']> (channels c)), [], Ok tt)
       ∧ find_nick_from_host ch' h = None
       ∧ (find_nick_from_host ch h = None → ch' = ch))
  ∧ (channels c !! chan = None →
     handle_msg msg c = (c, [], Raise KeyError)).
Proof.
  intros Hsplit Hu Hh Hne.
  unfold handle_msg, word. rewrite Hsplit. run_prog. rewrite Hu, Hh.
  split.
  - intros ch Hch. rewrite Hch.
    destruct (remove_by_host ch h Hne) as (ch' & -> & Hgone & Hsame).
    by exists ch'.
  - intros Hch. by rewrite Hch.
Qed.

Lemma part_line_witness :
  ∃ ch',
    handle_msg ":alice!~al@home.example PART #chan"
      (set_channels (online []) {[ "#chan" := alice_home ]})
    = (set_channels (online []) (<["#chan" := ch']> {[ "#chan" := alice_home ]}),
       [], Ok tt)
    ∧ find_nick_from_host ch' "home.example" = None.
Proof.
  destruct (part_line (set_channels (online []) {[ "#chan" := alice_home ]})
              ":alice!~al@home.example PART #chan" "alice!~al@home.example"
              "#chan" [] alice "home.example" eq_refl eq_refl eq_refl)
    as [Hknown _]; [done |].
  destruct (Hknown alice_home eq_refl) as (ch' & Hrun & Hgone & _).
  exists ch'. split; [exact Hrun | exact Hgone].
Defined.

(** X19.  A [PRIVMSG] line always reaches the message callbacks when its
    target is the client or a channel the client has.  In a channel the
    sender is recorded when its host is new there, and a host the
    channel has keeps the nick it is recorded with.  A message to the
    client itself touches no channel.  For a channel the client does not
    have the line raises [KeyError] before any callback. *)
Theorem privmsg_delivered c msg src rest m :
  Py.split_ws msg = String ":" src :: "PRIVMSG" :: rest →
  from_privmsg msg = Ok m →
  (∀ x t, target m = String x t → x ≠ "#"%char →
     handle_msg msg c = (c, [OnPrivmsg m], Ok tt))
  ∧ (∀ t ch n, target m = String "#" t →
       channels c !! target m = Some ch →
       host_map ch !! host (user m) = Some n →
       handle_msg msg c = (c, [OnPrivmsg m], Ok tt))
  ∧ (∀ t ch, target m = String "#" t →
       channels c !! target m = Some ch →
       host_map ch !! host (user m) = None →
       handle_msg msg c
       = (set_channels c (<[target m := add_user ch (user m)]> (channels c)),
          [OnPrivmsg m], Ok tt))
  ∧ (∀ t, target m = String "#" t → channels c !! target m = None →
       handle_msg msg c = (c, [], Raise KeyError)).
Proof.
  intros Hsplit Hm.
  unfold handle_msg, word, is_private. rewrite Hsplit. run_prog. rewrite Hm.
  repeat split.
  - intros x t Ht Hx. rewrite Ht. simpl.
    apply Ascii.eqb_neq in Hx. by rewrite Hx.
  - intros t ch n Ht Hch Hknown. rewrite Ht in *. simpl.
    by rewrite Hch, Hknown.
  - intros t ch Ht Hch Hnew. rewrite Ht in *. simpl.
    by rewrite Hch, Hnew.
  - intros t Ht Hch. rewrite Ht in *. simpl. by rewrite Hch.
Qed.

Lemma privmsg_delivered_witness :
  handle_msg ":alice!~al@home.example PRIVMSG #chan :hello" (online [])
  = (set_channels (online []) {[ "#chan" := alice_home ]},
     [OnPrivmsg {| user := alice; target := "#chan"; message := "hello";
                   words := ["hello"] |}], Ok tt).
Proof.
  destruct (privmsg_delivered (online [])
              ":alice!~al@home.example PRIVMSG #chan :hello"
              "alice!~al@home.example" ["#chan"; ":hello"]
              {| user := alice; target := "#chan"; message := "hello";
                 words := ["hello"] |} eq_refl eq_refl)
    as (_ & _ & Hnew & _).
  rewrite (Hnew "chan" chan eq_refl eq_refl eq_refl). reflexivity.
Defined.

End Membership_lines.

(** ** The error handler *)

Section ErrorHandler.

Import Irc Samples.

Implicit Types (c : Connection) (msg : string).

(** A method that leaves the registered error handler alone. *)
Abbreviation keeps m :=
  (∀ c, has_error_handler (m c).1.1 = has_error_handler c).

















End ErrorHandler.

(** ** The dispatch engine, further *)

Section Tick.

Import Bot Ticker Samples.

Variable strip_irc_formatting : Irc.text → Irc.text.

Implicit Types (b : Bot) (c : Irc.Connection) (w : World).
Implicit Types (x : response) (ch : Channel) (name target : string).
Implicit Types (out : list effect) (t : unit → result response).

(** Writes to the socket and nothing else. *)
Abbreviation writes out :=
  (Forall (fun e => ∃ payload, e = Conn (Irc.SocketSend payload)) out).

(** A ticker that returns. *)
Abbreviation returns t := (∃ x, t tt = Ok x).

(** A ticker that returns nothing to send. *)
Abbreviation quiet t := (∃ x, t tt = Ok x ∧ response_truthy x = false).

(** The bot with its logs emptied, and after a tick. *)
Abbreviation cleared b :=
  (set_reply_log (set_command_log b ∅ (_last_command b))
                 ((fun _ => ∅) <$> _reply_log b)).

Abbreviation ticked b := (set_timer (cleared b) (Some TICK_INTERVAL)).

Lemma send_msg_lines target (message : Irc.text) c :
  Irc.send_msg strip_irc_formatting target message c
  = Irc.send_lines target
      (Irc.lines_of strip_irc_formatting c target message) c.
Proof.
  unfold Irc.send_msg, Irc.lines_of. run_prog.
  by destruct (Irc.send_lines _ _ c) as [[c' out] r].
Qed.

Lemma writes_fmap (payloads : list string) :
  writes (Conn <$> (Irc.SocketSend <$> payloads)).
Proof.
  apply Forall_forall. intros e He.
  apply list_elem_of_fmap in He as (e' & -> & He').
  apply list_elem_of_fmap in He' as (p & -> & _). by exists p.
Qed.

(** [conn.send_msg] leaves the connection as it is and only writes to
    the socket; with a socket it returns. *)
Lemma conn_send_msg target (msg : string) b c :
  ∃ out r,
    conn (Irc.send_msg strip_irc_formatting target (Irc.Text msg)) (b, c)
    = ((b, c), out, r)
    ∧ writes out
    ∧ (is_Some (Irc.irc_socket c) → r = Ok tt).
Proof.
  unfold conn. simpl. rewrite send_msg_lines.
  destruct (Irc.irc_socket c) as [s|] eqn:Hs.
  - rewrite (send_lines_connected _ _ _ s Hs).
    eexists _, _. split; [done |]. split; [apply writes_fmap | done].
  - destruct (Irc.lines_of _ c target (Irc.Text msg)) as [|l lines] eqn:El.
    + exists [], (Ok tt). split; [done |]. split; [done |].
      by intros [? ?].
    + rewrite send_lines_disconnected by done.
      exists [], (Raise AttributeError). split; [done |]. split; [done |].
      by intros [? ?].
Qed.

(** Without a socket [conn.send_msg] raises before anything is written,
    unless the channel has its colours switched off. *)
Lemma conn_send_msg_offline target (msg : string) b c :
  Irc.irc_socket c = None →
  (∀ ich, Irc.channels c !! target = Some ich →
          Irc.allow_colors ich = true) →
  conn (Irc.send_msg strip_irc_formatting target (Irc.Text msg)) (b, c)
  = ((b, c), [], Raise AttributeError).
Proof.
  intros Hs Hcol. unfold conn. simpl. rewrite send_msg_lines.
  rewrite send_lines_disconnected; [done | done |].
  unfold Irc.lines_of.
  assert (Hsplit : Py.split_on "010" msg ≠ []).
  { unfold Py.split_on.
    by destruct (split_on_from_nonempty "010" msg "") as (p & more & ->). }
  destruct (Irc.channels c !! target) as [ich|] eqn:Ech; [| done].
  by rewrite (Hcol ich eq_refl).
Qed.

Lemma send_each_any target (msgs : list string) b c :
  ∃ out r,
    send_each strip_irc_formatting target msgs (b, c) = ((b, c), out, r)
    ∧ writes out
    ∧ (is_Some (Irc.irc_socket c) → r = Ok tt).
Proof.
  induction msgs as [|msg msgs IH]; simpl.
  - by exists [], (Ok tt).
  - cbv [mbind prog_bind].
    destruct (conn_send_msg target msg b c) as (out1 & r1 & -> & Hout1 & Hr1).
    destruct r1 as [[]|e].
    + destruct IH as (out2 & r2 & -> & Hout2 & Hr2).
      eexists _, _. split; [done |]. split; [by apply Forall_app | done].
    + eexists _, _. split; [done |]. split; [done |].
      intros Hs. by specialize (Hr1 Hs).
Qed.

Lemma send_msg_any x target b c :
  response_truthy x = true →
  ∃ out r,
    _send_msg strip_irc_formatting x target (b, c) = ((b, c), out, r)
    ∧ writes out
    ∧ (is_Some (Irc.irc_socket c) → r = Ok tt).
Proof.
  destruct x as [|s|l]; [done | |]; intros _; apply send_each_any.
Qed.

Lemma send_msg_offline x target b c :
  response_truthy x = true →
  Irc.irc_socket c = None →
  (∀ ich, Irc.channels c !! target = Some ich →
          Irc.allow_colors ich = true) →
  _send_msg strip_irc_formatting x target (b, c)
  = ((b, c), [], Raise AttributeError).
Proof.
  intros Hx Hs Hcol.
  destruct x as [|s|[|s l]]; [done | | done |]; simpl;
    cbv [mbind prog_bind]; by rewrite conn_send_msg_offline.
Qed.

(** The tickers of a channel: the bot and the connection stay as they
    are, and only the socket is written to. *)
Lemma run_tickers_any name (fs : list (unit → result response)) b c :
  ∃ out r,
    run_tickers strip_irc_formatting name fs (b, c) = ((b, c), out, r)
    ∧ writes out
    ∧ (is_Some (Irc.irc_socket c) → Forall (fun t => returns t) fs →
       r = Ok tt).
Proof.
  induction fs as [|t fs IH]; simpl.
  - by exists [], (Ok tt).
  - cbv [mbind prog_bind lift pass mret prog_ret].
    destruct (t tt) as [x|e] eqn:Et.
    + destruct IH as (out2 & r2 & Hrest & Hout2 & Hr2).
      destruct (response_truthy x) eqn:Hx.
      * destruct (send_msg_any x name b c Hx) as (out1 & r1 & -> & Hout1 & Hr1).
        destruct r1 as [[]|e].
        -- rewrite Hrest. eexists _, _. split; [done |].
           split; [simpl; by apply Forall_app |].
           intros Hs Hall. apply Hr2; [done |]. by inversion Hall.
        -- eexists _, _. split; [done |]. split; [done |].
           intros Hs _. by specialize (Hr1 Hs).
      * rewrite Hrest. eexists _, _. split; [done |]. split; [done |].
        intros Hs Hall. apply Hr2; [done |]. by inversion Hall.
    + exists [], (Raise e). split; [done |]. split; [done |].
      intros _ Hall. inversion Hall as [|? ? [x Hx] _]. congruence.
Qed.

(** Tickers that have nothing to say do nothing. *)
Lemma run_tickers_quiet name (fs : list (unit → result response)) w :
  Forall (fun t => quiet t) fs →
  run_tickers strip_irc_formatting name fs w = (w, [], Ok tt).
Proof.
  induction 1 as [|t fs (x & Et & Hx) _ IH]; [done |]. simpl.
  cbv [mbind prog_bind lift pass mret prog_ret].
  by rewrite Et, Hx, IH.
Qed.

(** The first ticker that raises ends the loop with its exception. *)
Lemma run_tickers_raise name pre t post e b c :
  is_Some (Irc.irc_socket c) →
  Forall (fun t' => returns t') pre →
  t tt = Raise e →
  ∃ out,
    run_tickers strip_irc_formatting name (pre ++ t :: post) (b, c)
    = ((b, c), out, Raise e)
    ∧ writes out.
Proof.
  intros Hs Hpre Et.
  induction Hpre as [|t' pre [x Ex] _ IH]; simpl;
    cbv [mbind prog_bind lift pass mret prog_ret].
  - rewrite Et. by exists [].
  - rewrite Ex. destruct IH as (out2 & Hrest & Hout2).
    destruct (response_truthy x) eqn:Hx.
    + destruct (send_msg_any x name b c Hx) as (out1 & r1 & -> & Hout1 & Hr1).
      rewrite (Hr1 Hs), Hrest. eexists. split; [done |].
      simpl. by apply Forall_app.
    + rewrite Hrest. by exists out2.
Qed.

(** Without a socket the first ticker with something to say ends the
    loop with [AttributeError]. *)
Lemma run_tickers_offline name pre t post x b c :
  Irc.irc_socket c = None →
  (∀ ich, Irc.channels c !! name = Some ich →
          Irc.allow_colors ich = true) →
  Forall (fun t' => quiet t') pre →
  t tt = Ok x → response_truthy x = true →
  run_tickers strip_irc_formatting name (pre ++ t :: post) (b, c)
  = ((b, c), [], Raise AttributeError).
Proof.
  intros Hs Hcol Hpre Et Hx.
  induction Hpre as [|t' pre (x' & Ex' & Hx') _ IH]; simpl;
    cbv [mbind prog_bind lift pass mret prog_ret].
  - by rewrite Et, Hx, send_msg_offline.
  - by rewrite Ex', Hx', IH.
Qed.

Lemma run_channels_any (chans : list Channel) b c :
  ∃ out r,
    run_channels strip_irc_formatting chans (b, c) = ((b, c), out, r)
    ∧ writes out
    ∧ (is_Some (Irc.irc_socket c) →
       Forall (fun ch => Forall (fun t => returns t) (tickers ch)) chans →
       r = Ok tt).
Proof.
  induction chans as [|ch chans IH]; simpl.
  - by exists [], (Ok tt).
  - cbv [mbind prog_bind].
    destruct (run_tickers_any (channel ch) (tickers ch) b c)
      as (out1 & r1 & -> & Hout1 & Hr1).
    destruct r1 as [[]|e].
    + destruct IH as (out2 & r2 & -> & Hout2 & Hr2).
      eexists _, _. split; [done |]. split; [simpl; by apply Forall_app |].
      intros Hs Hall. apply Hr2; [done |]. by inversion Hall.
    + eexists _, _. split; [done |]. split; [done |].
      intros Hs Hall. inversion Hall as [|? ? Hch _].
      by specialize (Hr1 Hs Hch).
Qed.

Lemma run_channels_raise before ch after pre t post e b c :
  is_Some (Irc.irc_socket c) →
  Forall (fun ch' => Forall (fun t' => returns t') (tickers ch')) before →
  tickers ch = pre ++ t :: post →
  Forall (fun t' => returns t') pre →
  t tt = Raise e →
  ∃ out,
    run_channels strip_irc_formatting (before ++ ch :: after) (b, c)
    = ((b, c), out, Raise e).
Proof.
  intros Hs Hbefore Hch Hpre Et.
  induction Hbefore as [|ch' before Hch' _ IH]; simpl;
    cbv [mbind prog_bind].
  - rewrite Hch.
    destruct (run_tickers_raise (channel ch) pre t post e b c Hs Hpre Et)
      as (out & -> & _).
    by exists out.
  - destruct (run_tickers_any (channel ch') (tickers ch') b c)
      as (out1 & r1 & -> & _ & Hr1).
    rewrite (Hr1 Hs Hch'). destruct IH as (out2 & -> ). by eexists.
Qed.

Lemma run_channels_offline before ch after pre t post x b c :
  Irc.irc_socket c = None →
  (∀ ich, Irc.channels c !! channel ch = Some ich →
          Irc.allow_colors ich = true) →
  Forall (fun ch' => Forall (fun t' => quiet t') (tickers ch')) before →
  tickers ch = pre ++ t :: post →
  Forall (fun t' => quiet t') pre →
  t tt = Ok x → response_truthy x = true →
  run_channels strip_irc_formatting (before ++ ch :: after) (b, c)
  = ((b, c), [], Raise AttributeError).
Proof.
  intros Hs Hcol Hbefore Hch Hpre Et Hx.
  induction Hbefore as [|ch' before Hch' _ IH]; simpl;
    cbv [mbind prog_bind].
  - rewrite Hch. by rewrite (run_tickers_offline _ pre t post x).
  - by rewrite run_tickers_quiet, IH.
Qed.

(** The frame of [_tick]: the logs are emptied before the tickers run,
    and the timer is started after them, whatever they did. *)
Lemma tick_frame order b c out r :
  run_channels strip_irc_formatting (values b order) (cleared b, c)
  = ((cleared b, c), out, r) →
  _tick strip_irc_formatting order (b, c)
  = ((ticked b, c), out ++ [Own (StartTimer 120)], r).
Proof.
  intros Hrun. unfold _tick, finally, bot, _start_tick_timer.
  cbv [mbind prog_bind modify get emit mret prog_ret].
  unfold values in *.
  destruct b as [adm bn chs clog last rlog tm].
  cbn [fst snd channels _reply_log _command_log _last_command bot_admins
       bans timer set_command_log set_reply_log set_timer fmap
       list_fmap app] in Hrun |- *.
  rewrite Hrun. by destruct r as [[]|e].
Qed.

(** X21.  A tick empties the command log and the reply log of every
    channel, runs the tickers of the channels in the order of the dict,
    and starts the tick timer again at 120 seconds as its last act,
    whether the tickers returned or not; before that it only writes to
    the socket, and the connection is left as it is.  After it every
    command goes through, whenever it comes and whoever sends it.
    - On a connection with a socket the tick returns when all tickers
      return, and it raises the exception of the first ticker that
      raises.
    - On a connection without a socket the first ticker that has
      something to say makes the tick raise [AttributeError], with
      nothing written, unless its channel has the colours switched
      off.
    In both cases the exception leaves [_tick] after the timer was
    started. *)
Theorem tick_always_rearms order b c :
  ∃ out r,
    _tick strip_irc_formatting order (b, c)
    = ((ticked b, c), out ++ [Own (StartTimer 120)], r)
    ∧ writes out
    ∧ _command_log (ticked b) = ∅
    ∧ (∀ name log, _reply_log (ticked b) !! name = Some log → log = ∅)
    ∧ (∀ now f cm,
         _call_command now f cm (ticked b)
         = (set_command_log (ticked b) {[ command cm := now ]}
              (Some (invocation_of cm)),
            [], Ok (func f cm)))
    ∧ (is_Some (Irc.irc_socket c) →
       Forall (fun ch => Forall (fun t => returns t) (tickers ch))
              (values b order) →
       r = Ok tt)
    ∧ (∀ before ch after pre t post e,
         is_Some (Irc.irc_socket c) →
         values b order = before ++ ch :: after →
         Forall (fun ch' => Forall (fun t' => returns t') (tickers ch'))
                before →
         tickers ch = pre ++ t :: post →
         Forall (fun t' => returns t') pre →
         t tt = Raise e →
         r = Raise e)
    ∧ (∀ before ch after pre t post x,
         Irc.irc_socket c = None →
         (∀ ich, Irc.channels c !! channel ch = Some ich →
                 Irc.allow_colors ich = true) →
         values b order = before ++ ch :: after →
         Forall (fun ch' => Forall (fun t' => quiet t') (tickers ch'))
                before →
         tickers ch = pre ++ t :: post →
         Forall (fun t' => quiet t') pre →
         t tt = Ok x → response_truthy x = true →
         r = Raise AttributeError ∧ out = []).
Proof.
  destruct (run_channels_any (values b order) (cleared b) c)
    as (out & r & Hrun & Hout & Hok).
  exists out, r.
  split; [by apply tick_frame |]. split; [done |]. split; [done |].
  split; [| split; [| split; [done | split]]].
  - intros name log. simpl. rewrite lookup_fmap.
    destruct (_reply_log b !! name); by intros [= <-].
  - intros now f cm. by rewrite call_command_first.
  - intros before ch after pre t post e Hs Hvals Hbefore Hch Hpre Et.
    rewrite Hvals in Hrun.
    destruct (run_channels_raise before ch after pre t post e (cleared b) c
                Hs Hbefore Hch Hpre Et) as (out' & Hraise).
    rewrite Hraise in Hrun. by injection Hrun as _ <-.
  - intros before ch after pre t post x Hs Hcol Hvals Hbefore Hch Hpre Et Hx.
    rewrite Hvals in Hrun.
    rewrite (run_channels_offline before ch after pre t post x (cleared b) c
               Hs Hcol Hbefore Hch Hpre Et Hx) in Hrun.
    by injection Hrun as <- <-.
Qed.

End Tick.

Section TickWitness.

Import Bot Ticker Samples.

Lemma tick_always_rearms_witness :
  (∃ out,
     _tick (fun t => t) ["#chan"] (bot_with chan_clock, online [])
     = ((set_timer (bot_with chan_clock) (Some 120), online []),
        out ++ [Own (StartTimer 120)], Ok tt))
  ∧ (∃ out,
     _tick (fun t => t) ["#chan"] (bot_with chan_ticks, online [])
     = ((set_timer (bot_with chan_ticks) (Some 120), online []),
        out ++ [Own (StartTimer 120)], Raise ValueError))
  ∧ _tick (fun t => t) ["#chan"] (bot_with chan_ticks, offline)
    = ((set_timer (bot_with chan_ticks) (Some 120), offline),
       [Own (StartTimer 120)], Raise AttributeError).
Proof.
  split; [| split].
  - destruct (tick_always_rearms (fun t => t) ["#chan"]
                (bot_with chan_clock) (online []))
      as (out & r & Hrun & _ & _ & _ & _ & Hok & _).
    exists out. rewrite Hrun, Hok; [reflexivity | by eexists |].
    repeat constructor; by eexists.
  - destruct (tick_always_rearms (fun t => t) ["#chan"]
                (bot_with chan_ticks) (online []))
      as (out & r & Hrun & _ & _ & _ & _ & _ & Hraise & _).
    exists out. rewrite Hrun.
    rewrite (Hraise [] chan_ticks []
               [ fun _ => Ok RNone; fun _ => Ok (RText "tick") ]
               (fun _ => Raise ValueError) [] ValueError);
      [reflexivity | by eexists | reflexivity | by constructor
      | reflexivity | | reflexivity].
    repeat constructor; by eexists.
  - destruct (tick_always_rearms (fun t => t) ["#chan"]
                (bot_with chan_ticks) offline)
      as (out & r & Hrun & _ & _ & _ & _ & _ & _ & Hoff).
    destruct (Hoff [] chan_ticks [] [ fun _ => Ok RNone ]
                (fun _ => Ok (RText "tick"))
                [ fun _ => Raise ValueError ] (RText "tick"))
      as [-> ->];
      [reflexivity | | reflexivity | by constructor | reflexivity
      | | reflexivity | reflexivity |].
    + intros ich Hich. vm_compute in Hich. by injection Hich as <-.
    + repeat constructor. by exists RNone.
    + rewrite Hrun. reflexivity.
Defined.

(** What the tick of [chan_clock] writes: the text of its second ticker,
    as one line, before the timer is started. *)
Example tick_of_clock :
  _tick (fun t => t) ["#chan"] (bot_with chan_clock, online [])
  = ((set_timer (bot_with chan_clock) (Some 120), online []),
     [Conn (Irc.SocketSend ("PRIVMSG #chan :tick" +:+ Py.CRLF));
      Own (StartTimer 120)],
     Ok tt).
Proof. vm_compute. reflexivity. Qed.

End TickWitness.

Section Dispatch.

Import Bot Samples.

Implicit Types (b : Bot) (r : response) (ch : Channel) (m : Irc.Message).
Implicit Types (f : Handler) (c : CommandMessage) (now : Z).

(** The command message of a resolved command is made from the message
    that was resolved. *)
Lemma resolve_message m ch f c :
  resolve m ch = Ok (Some (f, c)) → cm_message c = m.
Proof.
  unfold resolve, cmd_string_of, CommandMessage_init.
  destruct (Irc.words m) as [|w rest]; [done |].
  cbv [mbind result_bind].
  destruct (commands ch !! Py.lower (Py.tail w)).
  - by intros [= _ <-].
  - destruct (matching_commands _ _) as [|name [|? ?]]; [done | | done].
    destruct (commands ch !! name); [| done]. by intros [= _ <-].
Qed.

(** X22.  A command from a host on the admin list of the bot or of the
    channel always reaches its handler through [_handle_privmsg]: the
    flag the method sets on the sender switches the throttle off,
    whatever the command log holds.  The call is logged under the
    command of the resolved command message, and a text the handler
    returns is sent to the channel. *)
Theorem admin_command_reaches_handler now m b ch f c t :
  Irc.host (Irc.user m) ∉ bans b →
  Irc.target m = String "#" t →
  channels b !! Irc.target m = Some ch →
  Irc.host (Irc.user m) ∈ bot_admins b ∨ Irc.host (Irc.user m) ∈ admins ch →
  Py.startswith (Irc.message m) CMD_PREFIX = true →
  resolve (set_is_admin m true) ch = Ok (Some (f, c)) →
  ∃ out,
    _handle_privmsg now m b
    = (set_command_log b (<[command c := now]> (_command_log b))
                       (Some (invocation_of c)),
       out, Ok tt)
    ∧ (∀ s, func f c = RText s → s ≠ "" →
         SendMsg (Irc.target m) s ∈ out)
    ∧ (∀ l s, func f c = RList l → s ∈ l →
         SendMsg (Irc.target m) s ∈ out).
Proof.
  intros Hban Htarget Hch Hadmin Hbang Hres.
  assert (Hflag : bool_decide (Irc.host (Irc.user m) ∈ bot_admins b)
                  || bool_decide (Irc.host (Irc.user m) ∈ admins ch) = true).
  { apply orb_true_iff.
    destruct Hadmin; [left | right]; by apply bool_decide_eq_true. }
  pose proof (resolve_message _ _ _ _ Hres) as Hmsg.
  assert (Hcall : _call_command now f c b
                  = (set_command_log b (<[command c := now]> (_command_log b))
                                     (Some (invocation_of c)),
                     [], Ok (func f c))).
  { apply call_command_admin. unfold cm_user. by rewrite Hmsg. }
  assert (Htgt : cm_target c = Irc.target m).
  { unfold cm_target. by rewrite Hmsg. }
  unfold _handle_privmsg, Irc.is_private, lookup_channel.
  cbv [mbind prog_bind get lift].
  rewrite (bool_decide_eq_false_2 _ Hban), Htarget.
  change (negb (Ascii.eqb "#" "#")) with false. cbv iota beta.
  rewrite <- Htarget, Hch, Hflag. cbv iota beta.
  change (Irc.message (set_is_admin m true)) with (Irc.message m).
  rewrite Hbang.
  unfold _handle_command, _maybe_send_cmd_reply.
  cbv [mbind prog_bind lift]. rewrite Hres. cbv iota beta.
  assert (Hthread : ∀ b0, ∃ o,
            (if _is_threaded f then emit StartThread else pass) b0
            = (b0, o, Ok tt)).
  { intros b0. destruct (_is_threaded f); eauto. }
  destruct (Hthread b) as (o & ->). rewrite Hcall. rewrite Htgt.
  destruct (func f c) as [|s|l] eqn:Hr; simpl.
  - eexists. split; [done |]. by split.
  - destruct (String.eqb_spec s "") as [->|Hs]; simpl.
    + eexists. split; [done |]. split; [| done]. by intros ? [= <-].
    + eexists. split; [done |]. split; [| done].
      intros ? [= <-] _. apply elem_of_app. right. by left.
  - destruct l as [|x l].
    + rewrite bool_decide_eq_true_2 by done. simpl.
      eexists. split; [done |]. split; [done |].
      intros ? s [= <-]. by intros ?%elem_of_nil.
    + rewrite bool_decide_eq_false_2 by done. simpl.
      eexists. split; [done |]. split; [done |].
      intros ? s [= <-] Hin. apply elem_of_app. right.
      change (SendMsg (Irc.target m) x :: map (SendMsg (Irc.target m)) l)
        with (map (SendMsg (Irc.target m)) (x :: l)).
      apply list_elem_of_In, in_map, list_elem_of_In. done.
Qed.

Lemma admin_command_reaches_handler_witness :
  ∃ out,
    _handle_privmsg second (said (sender "root" "admin.example" false) "!roll")
      rolled_bot
    = (set_command_log rolled_bot {[ "!roll" := second ]}
         (Some (Some "admin.example", "!roll", [])),
       out, Ok tt)
    ∧ SendMsg "#chan" "4" ∈ out.
Proof.
  destruct (admin_command_reaches_handler second
              (said (sender "root" "admin.example" false) "!roll")
              rolled_bot chan_roll roll_func
              {| cm_message := said root "!roll"; command := "!roll";
                 args := [] |} "chan")
    as (out & Hrun & Htext & _).
  - vm_compute. by intros ?%elem_of_nil.
  - reflexivity.
  - reflexivity.
  - left. vm_compute. by left.
  - reflexivity.
  - reflexivity.
  - exists out. split; [| by apply (Htext "4")].
    rewrite Hrun. reflexivity.
Defined.

(** X23.  [_handle_join] sends the answer of the first join handler that
    answers, and nothing of the handlers after it; when no handler
    answers it sends nothing.  The bot is not changed. *)
Theorem handle_join_first_answer ch (u : Irc.User) b :
  (Forall (fun g => response_truthy (g u) = false) (joins ch) →
   _handle_join ch u b = (b, [], Ok tt))
  ∧ (∀ before g after,
       joins ch = before ++ g :: after →
       Forall (fun g' => response_truthy (g' u) = false) before →
       response_truthy (g u) = true →
       _handle_join ch u b = _send_msg (g u) (channel ch) b).
Proof.
  unfold _handle_join. split.
  - induction (joins ch) as [|g gs IH]; [done |].
    intros [Hg Hgs]%Forall_cons. simpl. rewrite Hg. by apply IH.
  - intros before g after -> Hbefore Hg.
    induction before as [|g' before IH]; simpl.
    + by rewrite Hg.
    + apply Forall_cons in Hbefore as [Hg' Hbefore]. rewrite Hg'.
      by apply IH.
Qed.

Lemma handle_join_first_answer_witness :
  _handle_join chan_greets alice new_bot
  = (new_bot, [SendMsg "#chan" "hello alice"], Ok tt).
Proof.
  destruct (handle_join_first_answer chan_greets alice new_bot)
    as [_ Hfirst].
  rewrite (Hfirst [fun _ => RNone]
             (fun u => RText ("hello " +:+ Irc.nick u))
             [fun _ => RText "welcome"] eq_refl);
    [reflexivity | by repeat constructor | reflexivity].
Defined.

(** What registering a plugin does to the commands of a channel. *)
Lemma register_plugin_commands ch (p : Plugin) :
  commands (register_plugin ch p) = plugin_commands p ∪ commands ch.
Proof.
  unfold register_plugin. simpl.
  apply (map_fold_weak_ind
           (fun (r : gmap string Handler) (m0 : gmap string Handler) =>
              r = m0 ∪ commands ch)).
  - by rewrite (left_id_L ∅ (∪)).
  - intros name f m0 r _ ->. by rewrite insert_union_l.
Qed.

(** X24.  After [register_plugin] a name the plugin declares calls the
    handler of the plugin, also when the channel had a handler under
    that name, and every other name calls what it called before; a
    message that types a name of the plugin in full is resolved to the
    handler of the plugin.  The repliers, join handlers and tickers of
    the plugin come after those the channel had. *)
Theorem register_plugin_last_wins ch (p : Plugin) :
  (∀ name f, plugin_commands p !! name = Some f →
     commands (register_plugin ch p) !! name = Some f)
  ∧ (∀ name, plugin_commands p !! name = None →
       commands (register_plugin ch p) !! name = commands ch !! name)
  ∧ (∀ m w rest f,
       Irc.words m = w :: rest →
       plugin_commands p !! Py.lower (Py.tail w) = Some f →
       resolve m (register_plugin ch p)
       = Ok (Some (f, {| cm_message := m; command := w; args := rest |})))
  ∧ replies (register_plugin ch p) = replies ch ++ plugin_replies p
  ∧ joins (register_plugin ch p) = joins ch ++ plugin_joins p
  ∧ tickers (register_plugin ch p) = tickers ch ++ plugin_tickers p.
Proof.
  split; [| split; [| split; [| done]]].
  - intros name f Hf. rewrite register_plugin_commands.
    by apply lookup_union_Some_l.
  - intros name Hnone. rewrite register_plugin_commands.
    by rewrite lookup_union_r.
  - intros m w rest f Hw Hf. apply resolve_exact; [done |].
    rewrite register_plugin_commands. by apply lookup_union_Some_l.
Qed.

Lemma register_plugin_last_wins_witness :
  resolve (said foo "!roll") (register_plugin chan_roll other_roll)
  = Ok (Some (repo_func, {| cm_message := said foo "!roll";
                            command := "!roll"; args := [] |})).
Proof.
  destruct (register_plugin_last_wins chan_roll other_roll)
    as (_ & _ & Hres & _).
  exact (Hres (said foo "!roll") "!roll" [] repo_func eq_refl eq_refl).
Defined.

End Dispatch.

Section RepliesMore.

Import Bot Samples.

Implicit Types (b : Bot) (ch : Channel) (m : Irc.Message) (now : Z).
Implicit Types (l : list string) (log : gmap string (gmap string datetime)).

Lemma list_remove_sublist (x : string) l : list_remove x l `sublist_of` l.
Proof.
  induction l as [|y l IH]; simpl; [done |].
  destruct (String.eqb y x); [by apply sublist_cons | by apply sublist_skip].
Qed.

Lemma throttle_loop_sublist fuel : ∀ now chan i l log,
  (throttle_loop fuel now chan i l log).1 `sublist_of` l.
Proof.
  induction fuel as [|fuel IH]; intros now chan i l log; simpl; [done |].
  destruct (l !! i) as [reply|]; [| done].
  etrans; [apply IH |].
  destruct (_ !! reply) as [sent|]; [| done].
  destruct (_ <? _); [apply list_remove_sublist | done].
Qed.

(** X25.  The throttle only takes replies away: what [_call_repliers]
    returns is a sublist of what the repliers gave, in their order.  The
    method sends nothing itself and changes nothing of the bot but the
    reply log. *)
Theorem call_repliers_sublist now ch m b b' out l :
  _call_repliers now ch m b = (b', out, Ok l) →
  l `sublist_of` collect_replies (replies ch) m []
  ∧ out = []
  ∧ b' = set_reply_log b (_reply_log b').
Proof.
  unfold _call_repliers, get_is_admin.
  cbv [mbind prog_bind lift get modify mret prog_ret].
  destruct (Irc.is_admin (Irc.user m)) as [[|]|]; simpl; [| | done].
  - intros [= <- <- <-]. split; [done |]. split; [done |]. by destruct b.
  - pose proof (throttle_loop_sublist
                  (length (collect_replies (replies ch) m [])) now
                  (channel ch) 0 (collect_replies (replies ch) m [])
                  (_reply_log b)) as Hsub.
    destruct (throttle_loop _ _ _ _ _ _) as [l' log']. simpl in *.
    intros [= <- <- <-]. split; [done |]. split; [done |]. by destruct b.
Qed.

Lemma call_repliers_sublist_witness :
  ["So do I"] `sublist_of`
    collect_replies (replies chan_replies) (said foo "hello") []
  ∧ ([] : list effect) = []
  ∧ set_reply_log replied_bot
      {[ "#chan" := {[ "I always work" := second; "So do I" := 0 ]} ]}
    = set_reply_log replied_bot
        (_reply_log
           (set_reply_log replied_bot
              {[ "#chan" := {[ "I always work" := second;
                               "So do I" := 0 ]} ]})).
Proof.
  apply (call_repliers_sublist second chan_replies (said foo "hello")
           replied_bot).
  vm_compute. reflexivity.
Defined.

(** The log of a channel, empty when the channel has none. *)
Abbreviation chan_log log chan := (default ∅ (log !! chan)).

Lemma throttle_loop_now_stays fuel : ∀ now chan i l log t,
  chan_log log chan !! t = Some now →
  chan_log (throttle_loop fuel now chan i l log).2 chan !! t = Some now.
Proof.
  induction fuel as [|fuel IH]; intros now chan i l log t Ht; simpl;
    [done |].
  destruct (l !! i) as [reply|]; [| done].
  apply IH. rewrite lookup_insert_eq. simpl.
  destruct (decide (reply = t)) as [->|Hne];
    [apply lookup_insert_eq | rewrite lookup_insert_ne by done].
  destruct (log !! chan) eqn:Elog; simpl in *.
  - by rewrite Elog.
  - by rewrite lookup_insert_eq.
Qed.

Lemma throttle_loop_all_pass fuel : ∀ now chan i l log,
  NoDup l →
  (∀ j t sent, (i ≤ j)%nat → l !! j = Some t →
     chan_log log chan !! t = Some sent →
     SPAM_THROTTLE ≤ seconds (now - sent)) →
  (throttle_loop fuel now chan i l log).1 = l
  ∧ ∀ j t, (i ≤ j < i + fuel)%nat → l !! j = Some t →
      chan_log (throttle_loop fuel now chan i l log).2 chan !! t
      = Some now.
Proof.
  induction fuel as [|fuel IH]; intros now chan i l log Hnd Hold; simpl.
  { split; [done |]. intros j t Hj. lia. }
  destruct (l !! i) as [reply|] eqn:Ei.
  2:{ split; [done |]. intros j t Hj Hjt.
      assert (l !! j = None); [| congruence].
      apply lookup_ge_None. apply lookup_ge_None in Ei. lia. }
  set (log1 := match log !! chan with
               | Some _ => log
               | None => <[chan := ∅]> log
               end).
  assert (Hlog1 : chan_log log1 chan = chan_log log chan).
  { unfold log1. destruct (log !! chan) eqn:Elog; [by rewrite Elog |].
    by rewrite lookup_insert_eq. }
  rewrite Hlog1.
  assert (Hkeep : match chan_log log chan !! reply with
                  | Some sent =>
                      if seconds (now - sent) <? SPAM_THROTTLE
                      then list_remove reply l else l
                  | None => l
                  end = l).
  { destruct (chan_log log chan !! reply) as [sent|] eqn:Esent; [| done].
    pose proof (Hold i reply sent ltac:(lia) Ei Esent) as Hge.
    by rewrite (proj2 (Z.ltb_ge _ _) Hge). }
  rewrite Hkeep.
  set (log2 := <[chan := <[reply := now]> (chan_log log chan)]> log1).
  assert (Hlog2 : chan_log log2 chan = <[reply := now]> (chan_log log chan)).
  { unfold log2. by rewrite lookup_insert_eq. }
  destruct (IH now chan (S i) l log2 Hnd) as [Hlist Hlogged].
  { intros j t sent Hj Hjt. rewrite Hlog2.
    assert (reply ≠ t).
    { intros ->. assert (i = j); [| lia].
      by apply (NoDup_lookup l i j t). }
    rewrite lookup_insert_ne by done. apply (Hold j); [lia | done]. }
  split; [done |]. intros j t Hj Hjt.
  destruct (decide (j = i)) as [->|Hne].
  - assert (t = reply) as -> by congruence.
    apply throttle_loop_now_stays. rewrite Hlog2. apply lookup_insert_eq.
  - apply (Hlogged j); [lia | done].
Qed.

(** X26.  For a sender who is no admin, when the texts the repliers give
    are all different and none of them is in the reply log of the channel
    with less than two whole seconds on it, all of them are returned,
    and each is logged for the channel with the time of this call. *)
Theorem call_repliers_all_pass now ch m b :
  Irc.is_admin (Irc.user m) = Some false →
  NoDup (collect_replies (replies ch) m []) →
  (∀ t sent, t ∈ collect_replies (replies ch) m [] →
     chan_log (_reply_log b) (channel ch) !! t = Some sent →
     SPAM_THROTTLE ≤ seconds (now - sent)) →
  ∃ b',
    _call_repliers now ch m b
    = (b', [], Ok (collect_replies (replies ch) m []))
    ∧ ∀ t, t ∈ collect_replies (replies ch) m [] →
        chan_log (_reply_log b') (channel ch) !! t = Some now.
Proof.
  intros Hadmin Hnd Hold.
  destruct (throttle_loop_all_pass
              (length (collect_replies (replies ch) m [])) now (channel ch)
              0 (collect_replies (replies ch) m []) (_reply_log b) Hnd)
    as [Hlist Hlogged].
  { intros j t sent _ Hjt. apply Hold. by eapply list_elem_of_lookup_2. }
  unfold _call_repliers, get_is_admin. rewrite Hadmin.
  cbv [mbind prog_bind lift get modify mret prog_ret negb].
  destruct (throttle_loop _ _ _ _ _ _) as [l' log'] eqn:Eloop.
  simpl in Hlist, Hlogged. subst l'.
  eexists. split; [done |]. simpl.
  intros t [j Hj]%list_elem_of_lookup_1. apply (Hlogged j); [| done].
  apply lookup_lt_Some in Hj. lia.
Qed.

Lemma call_repliers_all_pass_witness :
  ∃ b',
    _call_repliers (3 * second) chan_replies (said foo "hello") replied_bot
    = (b', [], Ok ["I always work"; "So do I"])
    ∧ ∀ t, t ∈ ["I always work"; "So do I"] →
        chan_log (_reply_log b') "#chan" !! t = Some (3 * second).
Proof.
  apply (call_repliers_all_pass (3 * second) chan_replies
           (said foo "hello") replied_bot).
  - reflexivity.
  - change (collect_replies (replies chan_replies) (said foo "hello") [])
      with ["I always work"; "So do I"].
    apply NoDup_cons. split; [| apply NoDup_singleton].
    by intros ?%list_elem_of_singleton.
  - intros t sent Hin Hsent.
    change (collect_replies (replies chan_replies) (said foo "hello") [])
      with ["I always work"; "So do I"] in Hin.
    apply elem_of_cons in Hin as [-> | Hin];
      [| apply list_elem_of_singleton in Hin as ->];
      vm_compute in Hsent; injection Hsent as <-; done.
Defined.

End RepliesMore.

Section MoreDispatch.

Import Bot Samples.

Implicit Types (b : Bot) (ch : Channel) (m : Irc.Message) (now : Z).
Implicit Types (f : Handler) (c : CommandMessage).

Lemma startswith_empty (s : string) : Py.startswith s "" = true.
Proof. by destruct s. Qed.

(** What [_maybe_send_cmd_reply] sends to [target] for what the handler
    returned. *)
Abbreviation reply_sent x target :=
  (match x with
   | RNone => []
   | RText s => if String.eqb s "" then [] else [SendMsg target s]
   | RList l => map (SendMsg target) l
   end).

Lemma threshold_bound b c : threshold b c ≤ 6.
Proof. unfold threshold, SPAM_THROTTLE. case_bool_decide; lia. Qed.

(** A call that the throttle drops: the thread is started if the
    handler asks for one, and nothing else happens. *)
Lemma handle_command_throttled now m ch f c b :
  resolve m ch = Ok (Some (f, c)) →
  _call_command now f c b = (b, [], Ok RNone) →
  _handle_command now m ch b
  = (b, (if _is_threaded f then [StartThread] else []), Ok tt).
Proof.
  intros Hres Hcall. rewrite (handle_command_some now m ch f c b Hres).
  unfold _maybe_send_cmd_reply.
  destruct (_is_threaded f); cbv [mbind prog_bind emit pass mret prog_ret];
    by rewrite Hcall.
Qed.

(** X27.  A bare ['!'] is a shorthand of every command.  In a channel
    with one command it is handled as ['!'] followed by the name of that
    command: [_handle_command] hands the handler and that command to
    [_maybe_send_cmd_reply]; when the command is not in the log the
    handler is called, the call is logged under ['!'] and the name, and
    what the handler returns is sent; when someone who is no admin sent
    ['!'] and the name less than the threshold ago, the bare ['!'] is
    dropped by the throttle.  In a channel with no command, or with two
    different ones, [_handle_command] calls nothing, sends nothing and
    leaves the bot as it was. *)
Theorem bare_prefix m ch rest :
  Irc.words m = CMD_PREFIX :: rest →
  (∀ name f, commands ch = {[ name := f ]} → name ≠ "" →
     let c := {| cm_message := m; command := CMD_PREFIX +:+ name;
                 args := rest |} in
     (∀ now b,
        _handle_command now m ch b
        = ((if _is_threaded f then emit StartThread else pass);;
           _maybe_send_cmd_reply now f c) b)
     ∧ (∀ now b,
          _command_log b !! (CMD_PREFIX +:+ name) = None →
          _handle_command now m ch b
          = (set_command_log b
               (<[CMD_PREFIX +:+ name := now]> (_command_log b))
               (Some (invocation_of c)),
             (if _is_threaded f then [StartThread] else [])
             ++ reply_sent (func f c) (Irc.target m),
             Ok tt))
     ∧ (∀ now b logged,
          Irc.is_admin (Irc.user m) = Some false →
          _command_log b !! (CMD_PREFIX +:+ name) = Some logged →
          0 ≤ now - logged < threshold b c * 1000000 →
          _handle_command now m ch b
          = (b, (if _is_threaded f then [StartThread] else []), Ok tt)))
  ∧ (commands ch = ∅ →
     ∀ now b, _handle_command now m ch b = (b, [], Ok tt))
  ∧ (∀ name1 name2, name1 ≠ name2 →
       is_Some (commands ch !! name1) → is_Some (commands ch !! name2) →
       commands ch !! "" = None →
       ∀ now b, _handle_command now m ch b = (b, [], Ok tt)).
Proof.
  intros Hw. split; [| split].
  - intros name f Hcmds Hname c.
    assert (Hres : resolve m ch = Ok (Some (f, c))).
    { apply (resolve_prefix m ch CMD_PREFIX rest name f); [done | | |].
      + rewrite Hcmds. by apply lookup_singleton_ne.
      + rewrite Hcmds. split; [rewrite lookup_singleton_eq; eauto |].
        split; [apply startswith_empty |].
        intros name' [f' Hf'] _.
        by apply lookup_singleton_Some in Hf' as [<- _].
      + rewrite Hcmds. apply lookup_singleton_eq. }
    split; [| split].
    + intros now b. by apply handle_command_some.
    + intros now b Hlog.
      by rewrite (handle_command_first now m ch f c b Hres Hlog).
    + intros now b logged Hadmin Hlog Hnear.
      apply (handle_command_throttled now m ch f c b Hres).
      pose proof (threshold_bound b c) as Hmax.
      rewrite (call_command_non_admin now f c b logged Hadmin Hlog)
        by lia.
      destruct (Z.ltb_spec (now - logged) (threshold b c * 1000000));
        [done | lia].
  - intros Hcmds now b. apply handle_command_none.
    apply (resolve_none m ch CMD_PREFIX rest); [done | |].
    + by rewrite Hcmds.
    + intros (name & [f Hf] & _). by rewrite Hcmds in Hf.
  - intros name1 name2 Hne H1 H2 Hnone now b. apply handle_command_none.
    apply (resolve_none m ch CMD_PREFIX rest); [done | done |].
    intros (name & _ & _ & Huniq).
    pose proof (Huniq name1 H1 (startswith_empty name1)).
    pose proof (Huniq name2 H2 (startswith_empty name2)). congruence.
Qed.

Lemma bare_prefix_witness :
  _handle_command second (said foo "!") chan_roll new_bot
  = (set_command_log new_bot {[ "!roll" := second ]}
       (Some (Some "baz", "!roll", [])),
     [SendMsg "#chan" "4"], Ok tt)
  ∧ _handle_command second (said foo "!") chan_roll rolled_bot
    = (rolled_bot, [], Ok tt)
  ∧ _handle_command second (said foo "!") chan_roll_repo new_bot
    = (new_bot, [], Ok tt).
Proof.
  destruct (bare_prefix (said foo "!") chan_roll [] eq_refl) as (Hone & _).
  destruct (bare_prefix (said foo "!") chan_roll_repo [] eq_refl)
    as (_ & _ & Htwo).
  destruct (Hone "roll" roll_func) as (_ & Hfirst & Hnear);
    [reflexivity | done |].
  split; [| split].
  - rewrite (Hfirst second new_bot eq_refl). reflexivity.
  - rewrite (Hnear second rolled_bot 0 eq_refl eq_refl); [reflexivity |].
    vm_compute. by split.
  - apply (Htwo "roll" "repo"); [done | by eexists | by eexists | reflexivity].
Defined.

Lemma seconds_drops_days (k d : Z) :
  0 ≤ d < 86400 * 1000000 →
  seconds (k * (86400 * 1000000) + d) = d / 1000000.
Proof.
  intros Hd. unfold seconds.
  replace (k * (86400 * 1000000) + d) with (d + (k * 86400) * 1000000)
    by lia.
  rewrite Z.div_add by lia.
  rewrite Z_mod_plus_full.
  apply Z.mod_small. split; [apply Z.div_pos; lia |].
  apply Z.div_lt_upper_bound; lia.
Qed.

(** X28.  The throttle looks at the seconds of the time that has passed
    and not at its days.  For a sender who is no admin, a command that
    is in the log is dropped when the time since the logged call is a
    whole number of days, which may be zero or negative, and less than
    the threshold on top; it goes through when what is on top of the
    days is the threshold or more.  So a repeat one day and one second
    later is dropped, and one that comes one second before the logged
    call, the clock having gone back, goes through. *)
Theorem throttle_ignores_days now f c b logged (days rest : Z) :
  Irc.is_admin (cm_user c) = Some false →
  _command_log b !! command c = Some logged →
  now - logged = days * (86400 * 1000000) + rest →
  0 ≤ rest < 86400 * 1000000 →
  (rest < threshold b c * 1000000 →
   _call_command now f c b = (b, [], Ok RNone))
  ∧ (threshold b c * 1000000 ≤ rest →
     _call_command now f c b
     = (set_command_log b (<[command c := now]> (_command_log b))
                        (Some (invocation_of c)),
        [], Ok (func f c))).
Proof.
  intros Hadmin Hlog Hdiff Hrest.
  assert (Hcheck : spam_check now c b
                   = (b, [], Ok (rest / 1000000 <? threshold b c))).
  { rewrite spam_check_spec, Hlog, Hadmin. simpl.
    by rewrite Hdiff, seconds_drops_days. }
  rewrite (call_command_spec now f c b _ Hcheck).
  assert (Hlt : (rest / 1000000 <? threshold b c)
                = (rest <? threshold b c * 1000000)).
  { destruct (Z.ltb_spec (rest / 1000000) (threshold b c)),
             (Z.ltb_spec rest (threshold b c * 1000000)); try done; exfalso.
    - assert (threshold b c ≤ rest / 1000000); [| lia].
      apply Z.div_le_lower_bound; lia.
    - assert (rest / 1000000 < threshold b c); [| lia].
      apply Z.div_lt_upper_bound; lia. }
  rewrite Hlt. split; intros Hcmp.
  - by rewrite (proj2 (Z.ltb_lt _ _) Hcmp).
  - by rewrite (proj2 (Z.ltb_ge _ _) Hcmp).
Qed.

Lemma throttle_ignores_days_witness :
  _call_command (86401 * second) roll_func
    (command_of (sender "bar" "qux" false) "!roll" []) rolled_bot
  = (rolled_bot, [], Ok RNone)
  ∧ _call_command (- second) roll_func
      (command_of (sender "bar" "qux" false) "!roll" []) rolled_bot
    = (set_command_log rolled_bot {[ "!roll" := - second ]}
         (Some (Some "qux", "!roll", [])),
       [], Ok (RText "4")).
Proof.
  split.
  - apply (throttle_ignores_days (86401 * second) roll_func
             (command_of (sender "bar" "qux" false) "!roll" []) rolled_bot
             0 1 second); done.
  - assert (Hday : 0 ≤ 86399 * second < 86400 * 1000000) by done.
    destruct (throttle_ignores_days (- second) roll_func
                (command_of (sender "bar" "qux" false) "!roll" [])
                rolled_bot 0 (-1) (86399 * second)
                eq_refl eq_refl eq_refl Hday) as [_ Hgo].
    etrans; [apply Hgo; done | reflexivity].
Defined.

End MoreDispatch.

Section ChunkLines.

Import Irc Samples.

Implicit Types (c : Connection) (cur l last : string).
Implicit Types (lines : list string).

Lemma split_str_from_line l : ∀ cur rest,
  Py.has_char "013" l = false →
  Py.split_str_from Py.CRLF 0 cur (l +:+ Py.CRLF +:+ rest)
  = (cur +:+ l) :: Py.split_str_from Py.CRLF 0 "" rest.
Proof.
  induction l as [|x l IH]; intros cur rest Hl.
  - change ("" +:+ Py.CRLF +:+ rest) with (String "013" (String "010" rest)).
    rewrite app_empty_r. simpl. by destruct rest.
  - simpl in Hl. apply orb_false_iff in Hl as [Hx Hl].
    change (String x l +:+ Py.CRLF +:+ rest)
      with (String x (l +:+ Py.CRLF +:+ rest)).
    change (Py.split_str_from Py.CRLF 0 cur (String x (l +:+ Py.CRLF +:+ rest)))
      with (if Ascii.eqb "013" x
               && Py.startswith (l +:+ Py.CRLF +:+ rest) (String "010" "")
            then cur :: Py.split_str_from Py.CRLF 1 ""
                          (l +:+ Py.CRLF +:+ rest)
            else Py.split_str_from Py.CRLF 0 (Py.snoc cur x)
                   (l +:+ Py.CRLF +:+ rest)).
    rewrite Ascii.eqb_sym, Hx. simpl andb. cbv iota.
    rewrite IH by done. by rewrite snoc_app.
Qed.

Lemma split_str_from_last last : ∀ cur,
  Py.has_char "013" last = false →
  Py.split_str_from Py.CRLF 0 cur last = [cur +:+ last].
Proof.
  induction last as [|x last IH]; intros cur Hl.
  - by rewrite app_empty_r.
  - simpl in Hl. apply orb_false_iff in Hl as [Hx Hl].
    change (Py.split_str_from Py.CRLF 0 cur (String x last))
      with (if Ascii.eqb "013" x
               && Py.startswith last (String "010" "")
            then cur :: Py.split_str_from Py.CRLF 1 "" last
            else Py.split_str_from Py.CRLF 0 (Py.snoc cur x) last).
    rewrite Ascii.eqb_sym, Hx. simpl andb. cbv iota.
    rewrite IH by done. by rewrite snoc_app.
Qed.

(** Lines that end with CR LF, and what comes after the last of them,
    are the pieces of the split. *)
Lemma split_str_terminated lines last :
  Forall (fun l => Py.has_char "013" l = false) lines →
  Py.has_char "013" last = false →
  Py.split_str Py.CRLF (Py.terminated lines +:+ last) = lines ++ [last].
Proof.
  intros Hlines Hlast. unfold Py.split_str.
  induction Hlines as [|l lines Hl Hlines IH]; simpl.
  - by apply (split_str_from_last last "").
  - assert (Happ : (l +:+ Py.CRLF +:+ Py.terminated lines) +:+ last
                   = l +:+ Py.CRLF +:+ (Py.terminated lines +:+ last)).
    { clear. induction l as [|x l IHl]; [done |].
      exact (f_equal (String x) IHl). }
    rewrite Happ, split_str_from_line by done. by rewrite IH.
Qed.

Lemma handle_lines_blank_end lines : ∀ c,
  handle_lines (lines ++ [""]) c = handle_lines lines c.
Proof.
  induction lines as [|l lines IH]; intros c; [done |].
  simpl. cbv [mbind prog_bind].
  destruct ((if String.eqb l "" then pass else handle_msg_guarded l) c)
    as [[c1 out1] [[]|e]]; [| done].
  by rewrite IH.
Qed.

(** X29.  A chunk of several lines, each ended by CR LF, is handled line
    by line in the order of the lines; the empty piece after the last
    CR LF is passed over.  When the chunk ends in the middle of a line,
    that beginning is handled as a line of its own. *)
Theorem chunk_handled_line_by_line lines last c :
  Forall (fun l => Py.has_char "013" l = false) lines →
  Py.has_char "013" last = false →
  handle_lines (Py.split_str Py.CRLF (Py.terminated lines +:+ last)) c
  = handle_lines (lines ++ [last]) c
  ∧ handle_lines (Py.split_str Py.CRLF (Py.terminated lines)) c
    = handle_lines lines c.
Proof.
  intros Hlines Hlast. split.
  - by rewrite split_str_terminated.
  - rewrite <- (app_empty_r (Py.terminated lines)).
    rewrite split_str_terminated by done. apply handle_lines_blank_end.
Qed.

Lemma chunk_handled_line_by_line_witness :
  handle_lines
    (Py.split_str Py.CRLF
       (Py.terminated ["PING :a"; ":alice!~al@home.example JOIN #chan"]))
    (online [])
  = handle_lines ["PING :a"; ":alice!~al@home.example JOIN #chan"]
      (online []).
Proof.
  apply (chunk_handled_line_by_line
           ["PING :a"; ":alice!~al@home.example JOIN #chan"] "" (online [])).
  - by repeat constructor.
  - reflexivity.
Defined.

Local Arguments from_ircformat : simpl never.
Local Arguments from_privmsg : simpl never.
Local Arguments remove_user : simpl never.
Local Arguments for_channels : simpl never.

(** X30.  Lines that do nothing.  A line of the server (its first word
    starts with a colon) with no second word, or with a second word that
    is none of the verbs the client knows, changes nothing, calls
    nothing and raises nothing; the welcome (001) calls the welcome
    callbacks and changes nothing.  A line of white space only raises
    [IndexError]. *)
Theorem lines_without_effect c msg src :
  (Py.split_ws msg = [String ":" src] → handle_msg msg c = (c, [], Ok tt))
  ∧ (∀ verb rest,
       Py.split_ws msg = String ":" src :: verb :: rest →
       verb ∉ ["001"; "JOIN"; "352"; "NICK"; "PART"; "QUIT"; "PRIVMSG"] →
       handle_msg msg c = (c, [], Ok tt))
  ∧ (∀ rest, Py.split_ws msg = String ":" src :: "001" :: rest →
       handle_msg msg c = (c, [OnWelcome], Ok tt))
  ∧ (Py.split_ws msg = [] → handle_msg msg c = (c, [], Raise IndexError)).
Proof.
  split; [| split; [| split]].
  - intros Hsplit. unfold handle_msg, word. by rewrite Hsplit.
  - intros verb rest Hsplit Hverb.
    unfold handle_msg, word. rewrite Hsplit. run_prog.
    repeat (apply not_elem_of_cons in Hverb as [Hne Hverb];
            apply String.eqb_neq in Hne; rewrite Hne; clear Hne).
    done.
  - intros rest Hsplit. unfold handle_msg, word. by rewrite Hsplit.
  - intros Hsplit. unfold handle_msg, word. by rewrite Hsplit.
Qed.

Lemma lines_without_effect_witness :
  handle_msg ":irc.example 433 * bot :Nickname is already in use"
    (online [])
  = (online [], [], Ok tt)
  ∧ handle_msg "   " (online []) = (online [], [], Raise IndexError).
Proof.
  destruct (lines_without_effect (online [])
              ":irc.example 433 * bot :Nickname is already in use"
              "irc.example") as (_ & Hverb & _).
  destruct (lines_without_effect (online []) "   " "") as (_ & _ & _ & Hblank).
  split; [| by apply Hblank].
  apply (Hverb "433" ["*"; "bot"; ":Nickname"; "is"; "already"; "in"; "use"]);
    [reflexivity |].
  intros Hin. repeat (apply elem_of_cons in Hin as [Heq | Hin]; [done |]).
  by apply elem_of_nil in Hin.
Defined.

End ChunkLines.
